(** * SSVEP backend: feature extraction, prediction endpoint, WebSocket fan-out

    A shallow embedding of [backend/features.py] and [backend/app/main.py].

    Python floats and NumPy [float64] values are IEEE 754 binary64 numbers and
    are modelled by Rocq's primitive floats.  Python exceptions are modelled by
    an error monad.  SciPy's [welch], NumPy's [mean] and the fitted
    scikit-learn pipelines are external to the repository: they enter as
    section variables. *)

From Stdlib Require Import ZArith Floats.
From stdpp Require Import gmap strings list.

(** ** Python exceptions and the error monad *)

Module Py.

Inductive exn : Type :=
  | HTTPException (status_code : Z) (detail : string)
  | ValueError
  | IndexError
  | OverflowError
  | RuntimeError
  | WebSocketDisconnect
  | CancelledError.

(** [except Exception] catches every class above but [CancelledError], which
    derives from [BaseException]. *)
Definition is_Exception (e : exn) : bool :=
  match e with
  | CancelledError => false
  | _ => true
  end.

Inductive result (A : Type) : Type :=
  | Ok (a : A)
  | Raise (e : exn).
Global Arguments Ok {A} a.
Global Arguments Raise {A} e.

Global Instance result_ret : MRet result := fun A a => Ok a.
Global Instance result_bind : MBind result := fun A B f m =>
  match m with
  | Ok a => f a
  | Raise e => Raise e
  end.
Global Instance result_fmap : FMap result := fun A B f m =>
  match m with
  | Ok a => Ok (f a)
  | Raise e => Raise e
  end.

(** [for x in xs: body], the loop state threaded through the body. *)
Fixpoint for_ {A S : Type} (xs : list A) (body : A -> S -> result S) (s : S)
  : result S :=
  match xs with
  | [] => Ok s
  | x :: xs' => s' ← body x s; for_ xs' body s'
  end.

(** [l[i]] on a sequence. *)
Definition getitem {A : Type} (l : list A) (i : nat) : result A :=
  match l !! i with
  | Some x => Ok x
  | None => Raise IndexError
  end.

(** Conversion of a Python [int] to a [float], as done by [float * int]:
    round to nearest even, [OverflowError] when the result is not finite. *)
Definition Z2float (z : Z) : float :=
  SF2Prim (binary_normalize prec emax z 0 false).

Definition float_of_int (z : Z) : result float :=
  let x := Z2float z in
  if is_infinity x then Raise OverflowError else Ok x.

(** [x * h] for a float [x] and an int [h]. *)
Definition float_mul_int (x : float) (h : Z) : result float :=
  y ← float_of_int h; Ok (PrimFloat.mul x y).

(** *** Laws of the error monad and of the loops *)

Lemma bind_Ok {A B} (m : result A) (f : A -> result B) (b : B) :
  m ≫= f = Ok b <-> exists a, m = Ok a /\ f a = Ok b.
Proof.
  destruct m as [a|e]; simpl; split.
  - intros H. by exists a.
  - by intros (a' & [= ->] & H).
  - discriminate.
  - by intros (a' & [=] & _).
Qed.

Lemma fmap_Ok {A B} (m : result A) (f : A -> B) (b : B) :
  f <$> m = Ok b <-> exists a, m = Ok a /\ b = f a.
Proof.
  destruct m as [a|e]; simpl; split.
  - intros [= <-]. by exists a.
  - by intros (a' & [= ->] & ->).
  - discriminate.
  - by intros (a' & [=] & _).
Qed.

Lemma mapM_nil {A B} (f : A -> result B) : mapM f [] = Ok [].
Proof. reflexivity. Qed.

Lemma mapM_cons {A B} (f : A -> result B) (x : A) (l : list A) :
  mapM f (x :: l) = (y ← f x; k ← mapM f l; Ok (y :: k)).
Proof. reflexivity. Qed.

Lemma mapM_Ok {A B} (f : A -> result B) (l : list A) (k : list B) :
  mapM f l = Ok k <-> Forall2 (fun x y => f x = Ok y) l k.
Proof.
  revert k. induction l as [|x l IH]; intros k.
  - rewrite mapM_nil. split.
    + intros [= <-]. constructor.
    + intros H. by inversion H.
  - rewrite mapM_cons. split.
    + intros (y & Hy & (k' & Hk' & [= <-])%bind_Ok)%bind_Ok.
      constructor; [done|]. by apply IH.
    + intros H. inversion H as [|? y ? k' Hy Hk']; subst.
      rewrite Hy. simpl. apply IH in Hk'. by rewrite Hk'.
Qed.

Lemma mapM_total {A B} (f : A -> result B) (l : list A) :
  Forall (fun x => exists y, f x = Ok y) l -> exists k, mapM f l = Ok k.
Proof.
  induction 1 as [|x l [y Hy] _ [k Hk]].
  - by exists [].
  - exists (y :: k). by rewrite mapM_cons, Hy, Hk.
Qed.

Lemma mapM_ext_in {A B} (f g : A -> result B) (l : list A) :
  Forall (fun x => f x = g x) l -> mapM f l = mapM g l.
Proof.
  induction 1 as [|x l Hx _ IH]; [done|].
  by rewrite !mapM_cons, Hx, IH.
Qed.

Lemma mapM_app {A B} (f : A -> result B) (l1 l2 : list A) :
  mapM f (l1 ++ l2) = (k1 ← mapM f l1; k2 ← mapM f l2; Ok (k1 ++ k2)).
Proof.
  induction l1 as [|x l1 IH].
  - rewrite mapM_nil. simpl. by destruct (mapM f l2).
  - rewrite <- app_comm_cons, !mapM_cons. destruct (f x) as [y|e]; simpl; [|done].
    rewrite IH. destruct (mapM f l1) as [k1|e]; simpl; [|done].
    by destruct (mapM f l2).
Qed.

Lemma mapM_fmap_list {A B C} (g : A -> B) (f : B -> result C) (l : list A) :
  mapM f (g <$> l) = mapM (fun x => f (g x)) l.
Proof.
  induction l as [|x l IH]; [done|].
  by rewrite fmap_cons, !mapM_cons, IH.
Qed.

(** A loop whose body appends to its state collects, in order, what each
    iteration appends. *)
Lemma for_append {A B} (g : A -> result (list B))
    (body : A -> list B -> result (list B)) (xs : list A) (s : list B) :
  (forall x s, body x s = (ys ← g x; Ok (s ++ ys))) ->
  for_ xs body s = (yss ← mapM g xs; Ok (s ++ mjoin yss)).
Proof.
  intros Hbody. revert s. induction xs as [|x xs IH]; intros s.
  - simpl. by rewrite app_nil_r.
  - rewrite mapM_cons. cbn [for_]. rewrite Hbody.
    destruct (g x) as [ys|e]; simpl; [|done].
    rewrite IH. destruct (mapM g xs) as [yss|e]; simpl; [|done].
    by rewrite app_assoc.
Qed.

(** The same for a body that appends one element. *)
Lemma for_append1 {A B} (g : A -> result B)
    (body : A -> list B -> result (list B)) (xs : list A) (s : list B) :
  (forall x s, body x s = (y ← g x; Ok (s ++ [y]))) ->
  for_ xs body s = (ys ← mapM g xs; Ok (s ++ ys)).
Proof.
  intros Hbody. revert s. induction xs as [|x xs IH]; intros s.
  - simpl. by rewrite app_nil_r.
  - rewrite mapM_cons. cbn [for_]. rewrite Hbody.
    destruct (g x) as [y|e]; simpl; [|done].
    rewrite IH. destruct (mapM g xs) as [ys|e]; simpl; [|done].
    by rewrite <- app_assoc.
Qed.

Lemma for_ext {A S} (b1 b2 : A -> S -> result S) (xs : list A) (s : S) :
  (forall x s, b1 x s = b2 x s) -> for_ xs b1 s = for_ xs b2 s.
Proof.
  intros Hb. revert s. induction xs as [|x xs IH]; intros s; [done|].
  simpl. rewrite Hb. destruct (b2 x s); simpl; [apply IH|done].
Qed.

Lemma mapM_length {A B} (f : A -> result B) (l : list A) (k : list B) :
  mapM f l = Ok k -> length k = length l.
Proof. intros H%mapM_Ok. symmetry. by eapply Forall2_length. Qed.

Lemma mapM_lookup {A B} (f : A -> result B) (l : list A) (k : list B) i x :
  mapM f l = Ok k -> l !! i = Some x -> exists y, k !! i = Some y /\ f x = Ok y.
Proof.
  intros H%mapM_Ok Hx.
  destruct (Forall2_lookup_l _ _ _ _ _ H Hx) as (y & Hy & Hxy). eauto.
Qed.

Lemma mapM_pure {A B} (f : A -> result B) (g : A -> B) (l : list A) :
  Forall (fun x => f x = Ok (g x)) l -> mapM f l = Ok (g <$> l).
Proof.
  induction 1 as [|x l Hx _ IH]; [done|].
  by rewrite mapM_cons, Hx, IH.
Qed.

Lemma getitem_Ok {A} (l : list A) i x : getitem l i = Ok x <-> l !! i = Some x.
Proof. unfold getitem. destruct (l !! i); split; congruence. Qed.

End Py.

Import Py.

(** ** The order of binary64 numbers

    What the scan of [np.argmax] relies on: away from NaN, [<=] and [<] of
    floats form a total order. *)

Module FloatOrder.

Ltac sf_cases :=
  intros;
  repeat match goal with
  | H : context [Pos.compare_cont Eq ?a ?b] |- _ =>
      change (Pos.compare_cont Eq a b) with (Pos.compare a b) in H
  | |- context [Pos.compare_cont Eq ?a ?b] =>
      change (Pos.compare_cont Eq a b) with (Pos.compare a b)
  end;
  repeat match goal with
  | H : context [Z.compare ?a ?b] |- _ =>
      destruct (Z.compare_spec a b); simpl in H
  | |- context [Z.compare ?a ?b] => destruct (Z.compare_spec a b); simpl
  | H : context [Pos.compare ?a ?b] |- _ =>
      destruct (Pos.compare_spec a b); simpl in H
  | |- context [Pos.compare ?a ?b] => destruct (Pos.compare_spec a b); simpl
  end;
  try done; try lia.

Lemma SFleb_ltb_trans (a b c : spec_float) :
  SFleb a b = true -> SFltb b c = true -> SFltb a c = true.
Proof.
  unfold SFleb, SFltb, SFcompare.
  destruct a as [[]|[]| |[] ma ea], b as [[]|[]| |[] mb eb],
           c as [[]|[]| |[] mc ec];
    try done; sf_cases.
Qed.

Lemma SFleb_total (a b : spec_float) :
  SFeqb a a = true -> SFeqb b b = true -> SFleb a b = false ->
  SFltb b a = true.
Proof.
  unfold SFleb, SFltb, SFeqb, SFcompare.
  destruct a as [[]|[]| |[] ma ea], b as [[]|[]| |[] mb eb];
    try done; sf_cases.
Qed.

Lemma SFltb_leb (a b : spec_float) : SFltb a b = true -> SFleb a b = true.
Proof.
  unfold SFleb, SFltb. by destruct (SFcompare a b) as [[]|].
Qed.

Lemma leb_ltb_trans (x y z : float) :
  PrimFloat.leb x y = true -> PrimFloat.ltb y z = true ->
  PrimFloat.ltb x z = true.
Proof. rewrite FloatAxioms.leb_spec, !FloatAxioms.ltb_spec. apply SFleb_ltb_trans. Qed.

Lemma ltb_leb (x y : float) :
  PrimFloat.ltb x y = true -> PrimFloat.leb x y = true.
Proof. rewrite FloatAxioms.leb_spec, FloatAxioms.ltb_spec. apply SFltb_leb. Qed.

Lemma not_leb_ltb (x y : float) :
  is_nan x = false -> is_nan y = false -> PrimFloat.leb x y = false ->
  PrimFloat.ltb y x = true.
Proof.
  unfold is_nan. rewrite !FloatAxioms.eqb_spec, FloatAxioms.leb_spec, FloatAxioms.ltb_spec.
  intros Hx%negb_false_iff Hy%negb_false_iff. by apply SFleb_total.
Qed.

Lemma leb_refl (x : float) : is_nan x = false -> PrimFloat.leb x x = true.
Proof.
  unfold is_nan. rewrite FloatAxioms.eqb_spec, FloatAxioms.leb_spec. intros Hx%negb_false_iff.
  unfold SFeqb in Hx. unfold SFleb. by destruct (SFcompare _ _) as [[]|].
Qed.

End FloatOrder.

(** ** backend/features.py *)

Module Features.

(** A three-dimensional [float64] array: its shape and its items, trials
    outermost. *)
Record ndarray3 : Type := {
  n_trials : nat;
  n_channels : nat;
  n_samples : nat;
  items : list (list (list float))
}.

(** The items agree with the shape. *)
Definition wf (X : ndarray3) : Prop :=
  length (items X) = n_trials X /\
  Forall (fun trial =>
            length trial = n_channels X /\
            Forall (fun sig => length sig = n_samples X) trial) (items X).

(** [X[trial_idx, ch, :]] *)
Definition getitem3 (X : ndarray3) (trial_idx ch : nat) : result (list float) :=
  trial ← getitem (items X) trial_idx; getitem trial ch.

(** [np.where(mask)[0]] for the mask computed elementwise by [p] over [f]. *)
Fixpoint np_where_from (p : float -> bool) (f : list float) (i : nat) : list nat :=
  match f with
  | [] => []
  | x :: f' => if p x then i :: np_where_from p f' (S i) else np_where_from p f' (S i)
  end.

Definition np_where (p : float -> bool) (f : list float) : list nat :=
  np_where_from p f 0.

(** [psd[idx]] for an integer index array. *)
Definition take_idx (psd : list float) (idx : list nat) : result (list float) :=
  mapM (getitem psd) idx.

(** [(f >= freq - band_width) & (f <= freq + band_width)] at one bin. *)
Definition in_band (freq band_width x : float) : bool :=
  PrimFloat.leb (PrimFloat.sub freq band_width) x &&
  PrimFloat.leb x (PrimFloat.add freq band_width).

(** [features[trial_idx, :] = np.array(trial_feats)]: the row is replaced when
    the lengths agree, a one-element array is broadcast, anything else is a
    shape mismatch. *)
Definition set_row (features : list (list float)) (n_features trial_idx : nat)
    (trial_feats : list float) : result (list (list float)) :=
  if decide (trial_idx < length features) then
    if decide (length trial_feats = n_features) then
      Ok (<[trial_idx := trial_feats]> features)
    else
      match trial_feats with
      | [x] => Ok (<[trial_idx := replicate n_features x]> features)
      | _ => Raise ValueError
      end
  else Raise IndexError.

(** *** A concrete estimator and a concrete batch

    A one-sided frequency axis with the magnitudes of the leading samples as
    PSD, and the arithmetic mean summed from the left: instances of the two
    variables on which the extraction can be run. *)

Definition axis_estimator (sig : list float) (fs : Z) (nperseg : nat)
  : result (list float * list float) :=
  if decide (nperseg = 0) then Raise ValueError
  else
    let df := PrimFloat.div (Z2float fs) (Z2float (Z.of_nat nperseg)) in
    let ks := seq 0 (nperseg / 2 + 1) in
    Ok ((fun k => PrimFloat.mul (Z2float (Z.of_nat k)) df) <$> ks,
        (fun k => PrimFloat.abs (default 0%float (sig !! k))) <$> ks).

Definition left_mean (l : list float) : float :=
  PrimFloat.div (foldl PrimFloat.add 0%float l) (Z2float (Z.of_nat (length l))).

(** An estimator that agrees with [axis_estimator] on signals of four samples
    and rejects every other signal. *)
Definition four_sample_estimator (sig : list float) (fs : Z) (nperseg : nat)
  : result (list float * list float) :=
  if decide (length sig = 4) then axis_estimator sig fs nperseg
  else Raise ValueError.

(** Two trials of one channel and four samples. *)
Definition X2 : ndarray3 :=
  {| n_trials := 2; n_channels := 1; n_samples := 4;
     items := [ [ [1; 2; 3; 4]%float ]; [ [0.5; 8; 0.25; 16]%float ] ] |}.

Section Extract.

(** [scipy.signal.welch(sig, fs=fs, nperseg=nperseg)]: the frequency axis and
    the power spectral density, or an exception. *)
Variable welch : list float -> Z -> nat -> result (list float * list float).

(** [ndarray.mean()] of a one-dimensional [float64] array. *)
Variable np_mean : list float -> float.

(** Lines 56-63: the band power around [freq]. *)
Definition band_power (f psd : list float) (freq band_width : float)
  : result float :=
  let idx := np_where (in_band freq band_width) f in
  if decide (0 < length idx) then
    sel ← take_idx psd idx; Ok (np_mean sel)
  else Ok 0%float.

Definition extract_ssvep_features (X : ndarray3) (fs : Z)
    (target_freqs : list float) (harmonic_multipliers : list Z)
    (band_width : float) : result (list (list float)) :=
  let n_freq_components := length target_freqs * length harmonic_multipliers in
  let n_features := n_channels X * n_freq_components in
  let features := replicate (n_trials X) (replicate n_features 0%float) in
  for_ (seq 0 (n_trials X)) (fun trial_idx features =>
    trial_feats ←
      for_ (seq 0 (n_channels X)) (fun ch trial_feats =>
        sig ← getitem3 X trial_idx ch;
        '(f, psd) ← welch sig fs (min 512 (n_samples X));
        for_ target_freqs (fun base_f trial_feats =>
          for_ harmonic_multipliers (fun h trial_feats =>
            freq ← float_mul_int base_f h;
            power ← band_power f psd freq band_width;
            Ok (trial_feats ++ [power])) trial_feats) trial_feats) [];
    set_row features n_features trial_idx trial_feats) features.

(** *** The loops, level by level

    What the innermost body appends for one base frequency and one harmonic,
    what the two inner loops append for one channel, and what the channel loop
    collects for one trial. *)

Definition feature (f psd : list float) (band_width base_f : float) (h : Z)
  : result float :=
  freq ← float_mul_int base_f h; band_power f psd freq band_width.

Definition channel_feats (X : ndarray3) (fs : Z) (target_freqs : list float)
    (harmonic_multipliers : list Z) (band_width : float) (trial_idx ch : nat)
  : result (list float) :=
  sig ← getitem3 X trial_idx ch;
  '(f, psd) ← welch sig fs (min 512 (n_samples X));
  mjoin <$> mapM (fun base_f => mapM (feature f psd band_width base_f)
                                     harmonic_multipliers) target_freqs.

Definition trial_feats (X : ndarray3) (fs : Z) (target_freqs : list float)
    (harmonic_multipliers : list Z) (band_width : float) (trial_idx : nat)
  : result (list float) :=
  mjoin <$> mapM (channel_feats X fs target_freqs harmonic_multipliers
                    band_width trial_idx) (seq 0 (n_channels X)).

(** *** The band power, as the specification words it

    The PSD values of the bins whose frequency lies in
    [[freq - band_width, freq + band_width]], and their mean, [0.0] when there
    is none. *)

Fixpoint bins_in_band (freq band_width : float) (f psd : list float) : list float :=
  match f, psd with
  | x :: f', p :: psd' =>
      if in_band freq band_width x then p :: bins_in_band freq band_width f' psd'
      else bins_in_band freq band_width f' psd'
  | _, _ => []
  end.

Definition band_mean (f psd : list float) (freq band_width : float) : float :=
  match bins_in_band freq band_width f psd with
  | [] => 0%float
  | bins => np_mean bins
  end.

(** *** Validity of the inputs *)

(** The spectral estimator accepts every channel of the batch and returns as
    many PSD values as frequencies. *)
Definition estimator_ok (X : ndarray3) (fs : Z) : Prop :=
  forall trial_idx ch sig, getitem3 X trial_idx ch = Ok sig ->
    exists f psd, welch sig fs (min 512 (n_samples X)) = Ok (f, psd) /\
                  length f = length psd.

(** The multiplier converts to a finite float. *)
Definition representable (h : Z) : Prop := is_infinity (Z2float h) = false.

(** *** Closed form of one channel's block *)

Definition channel_values (f psd : list float) (target_freqs : list float)
    (harmonic_multipliers : list Z) (band_width : float) : list float :=
  mjoin ((fun base_f =>
            (fun h => band_mean f psd (PrimFloat.mul base_f (Z2float h))
                                band_width) <$> harmonic_multipliers)
         <$> target_freqs).

(** *** Single trials *)

(** The batch of size one holding [trial], with the channel and sample counts
    of [X]. *)
Definition single_trial (X : ndarray3) (trial : list (list float)) : ndarray3 :=
  {| n_trials := 1; n_channels := n_channels X; n_samples := n_samples X;
     items := [trial] |}.

(** *** Selecting by index is selecting by frequency *)

Lemma take_idx_where_from (p : float -> bool) (pre f psd : list float) :
  length f = length psd ->
  mapM (getitem (pre ++ psd)) (np_where_from p f (length pre)) =
  Ok (omap (fun xp => if p xp.1 then Some xp.2 else None) (zip f psd)).
Proof.
  revert pre psd. induction f as [|x f IH]; intros pre [|q psd] Hlen;
    simplify_eq/=; [done|].
  specialize (IH (pre ++ [q]) psd Hlen).
  rewrite <- app_assoc, length_app, Nat.add_1_r in IH. simpl in IH.
  destruct (p x).
  - rewrite mapM_cons, IH.
    assert (getitem (pre ++ q :: psd) (length pre) = Ok q) as ->; [|done].
    apply getitem_Ok. by rewrite list_lookup_middle.
  - exact IH.
Qed.

Lemma bins_in_band_omap (freq band_width : float) (f psd : list float) :
  bins_in_band freq band_width f psd =
  omap (fun xp => if in_band freq band_width xp.1 then Some xp.2 else None)
       (zip f psd).
Proof.
  revert psd. induction f as [|x f IH]; intros [|q psd]; simpl; try done.
  rewrite IH. by destruct (in_band freq band_width x).
Qed.

Lemma take_idx_where (freq band_width : float) (f psd : list float) :
  length f = length psd ->
  take_idx psd (np_where (in_band freq band_width) f) =
  Ok (bins_in_band freq band_width f psd).
Proof.
  intros Hlen. rewrite bins_in_band_omap.
  exact (take_idx_where_from (in_band freq band_width) [] f psd Hlen).
Qed.

Lemma band_power_spec (f psd : list float) (freq band_width : float) :
  length f = length psd ->
  band_power f psd freq band_width = Ok (band_mean f psd freq band_width).
Proof.
  intros Hlen. unfold band_power, band_mean.
  pose proof (take_idx_where freq band_width f psd Hlen) as Hsel.
  pose proof (mapM_length _ _ _ Hsel) as Hn.
  rewrite Hsel. simpl.
  destruct (bins_in_band freq band_width f psd) as [|b bins];
    simpl in Hn; case_decide; try lia; done.
Qed.

(** The bins the code selects are the bins of the closed interval
    [[freq - band_width, freq + band_width]]: both comparisons are [<=]. *)
Lemma bins_in_band_closed_interval (freq band_width : float)
    (f psd : list float) :
  bins_in_band freq band_width f psd =
  (filter (fun bin : float * float =>
             PrimFloat.leb (PrimFloat.sub freq band_width) bin.1 = true /\
             PrimFloat.leb bin.1 (PrimFloat.add freq band_width) = true)
          (zip f psd)).*2.
Proof.
  revert psd. induction f as [|x f IH]; intros [|q psd]; try done.
  cbn [bins_in_band zip zip_with]. rewrite filter_cons. cbn [fst].
  rewrite IH. unfold in_band.
  destruct (PrimFloat.leb (PrimFloat.sub freq band_width) x);
    destruct (PrimFloat.leb x (PrimFloat.add freq band_width)); cbn [andb].
  - by rewrite decide_True by done.
  - by rewrite decide_False by (by intros [_ ?]).
  - by rewrite decide_False by (by intros [? _]).
  - by rewrite decide_False by (by intros [? _]).
Qed.

Lemma feature_spec (f psd : list float) (band_width base_f : float) (h : Z) :
  length f = length psd -> representable h ->
  feature f psd band_width base_f h =
  Ok (band_mean f psd (PrimFloat.mul base_f (Z2float h)) band_width).
Proof.
  intros Hlen Hh. unfold feature, float_mul_int, float_of_int.
  rewrite Hh. simpl. by apply band_power_spec.
Qed.

(** *** The function in terms of its levels *)

Lemma extract_unfold (X : ndarray3) (fs : Z) (target_freqs : list float)
    (harmonic_multipliers : list Z) (band_width : float) :
  extract_ssvep_features X fs target_freqs harmonic_multipliers band_width =
  let n_features :=
    n_channels X * (length target_freqs * length harmonic_multipliers) in
  for_ (seq 0 (n_trials X)) (fun trial_idx features =>
    row ← trial_feats X fs target_freqs harmonic_multipliers band_width trial_idx;
    set_row features n_features trial_idx row)
    (replicate (n_trials X) (replicate n_features 0%float)).
Proof.
  unfold extract_ssvep_features. cbv zeta. apply for_ext. intros t feats.
  f_equal. unfold trial_feats.
  rewrite (for_append (channel_feats X fs target_freqs harmonic_multipliers
                         band_width t)).
  { by destruct (mapM _ _). }
  intros ch acc. unfold channel_feats.
  destruct (getitem3 X t ch) as [sig|e]; simpl; [|done].
  destruct (welch sig fs _) as [[f psd]|e]; simpl; [|done].
  rewrite (for_append (fun base_f => mapM (feature f psd band_width base_f)
                                         harmonic_multipliers)).
  { by destruct (mapM _ _). }
  intros base_f acc'.
  apply (for_append1 (feature f psd band_width base_f)).
  intros h acc''. unfold feature.
  by destruct (float_mul_int base_f h).
Qed.

Lemma mjoin_length_same {A} (n : nat) (ls : list (list A)) :
  Forall (fun l => length l = n) ls -> length (mjoin ls) = length ls * n.
Proof.
  intros H. rewrite length_join. by apply sum_list_fmap_same.
Qed.

Lemma channel_feats_length X fs target_freqs harmonic_multipliers band_width
    t ch (l : list float) :
  channel_feats X fs target_freqs harmonic_multipliers band_width t ch = Ok l ->
  length l = length target_freqs * length harmonic_multipliers.
Proof.
  unfold channel_feats. intros (sig & _ & H)%bind_Ok.
  apply bind_Ok in H as ([f psd] & _ & H). apply fmap_Ok in H as (ls & H & ->).
  rewrite (mjoin_length_same (length harmonic_multipliers)).
  - by rewrite (mapM_length _ _ _ H).
  - apply mapM_Ok in H. clear -H.
    induction H as [|base_f l ? ? Hl _ IH]; constructor; [|done].
    by apply mapM_length in Hl.
Qed.

Lemma trial_feats_length X fs target_freqs harmonic_multipliers band_width
    t (row : list float) :
  trial_feats X fs target_freqs harmonic_multipliers band_width t = Ok row ->
  length row =
  n_channels X * (length target_freqs * length harmonic_multipliers).
Proof.
  unfold trial_feats. intros (ls & H & ->)%fmap_Ok.
  rewrite (mjoin_length_same (length target_freqs * length harmonic_multipliers)).
  - by rewrite (mapM_length _ _ _ H), length_seq.
  - apply mapM_Ok in H. clear -H.
    induction H as [|ch l ? ? Hl _ IH]; constructor; [|done].
    by eapply channel_feats_length.
Qed.

(** Filling the rows of [features] one trial after the other leaves exactly
    the rows computed. *)
Lemma for_set_row (g : nat -> result (list float)) (n_features n a : nat)
    (init : list (list float)) :
  a + n = length init ->
  (forall t row, g t = Ok row -> length row = n_features) ->
  for_ (seq a n) (fun t features => row ← g t; set_row features n_features t row)
       init =
  (rows ← mapM g (seq a n); Ok (take a init ++ rows)).
Proof.
  intros Hlen Hg. revert a init Hlen.
  induction n as [|n IH]; intros a init Hlen.
  - simpl. rewrite app_nil_r, take_ge by lia. done.
  - cbn [seq for_]. rewrite mapM_cons.
    destruct (g a) as [row|e] eqn:Hrow; simpl; [|done].
    unfold set_row. rewrite decide_True by lia.
    rewrite decide_True by (by apply (Hg a)). simpl.
    rewrite IH by (rewrite length_insert; lia).
    destruct (mapM g (seq (S a) n)) as [rows|e]; simpl; [|done].
    f_equal. rewrite (take_S_r _ _ row).
    + rewrite take_insert_ge by lia. by rewrite <- app_assoc.
    + apply list_lookup_insert_eq. lia.
Qed.

Lemma extract_rows (X : ndarray3) (fs : Z) (target_freqs : list float)
    (harmonic_multipliers : list Z) (band_width : float) :
  extract_ssvep_features X fs target_freqs harmonic_multipliers band_width =
  mapM (trial_feats X fs target_freqs harmonic_multipliers band_width)
       (seq 0 (n_trials X)).
Proof.
  rewrite extract_unfold. cbv zeta.
  rewrite (for_set_row
             (trial_feats X fs target_freqs harmonic_multipliers band_width)).
  - by destruct (mapM _ _).
  - by rewrite length_replicate.
  - intros t row. apply trial_feats_length.
Qed.

(** *** Where the entries of one channel's block sit *)

Lemma channel_values_lookup f psd target_freqs harmonic_multipliers band_width
    fi hi base_f h :
  target_freqs !! fi = Some base_f -> harmonic_multipliers !! hi = Some h ->
  channel_values f psd target_freqs harmonic_multipliers band_width
    !! (fi * length harmonic_multipliers + hi) =
  Some (band_mean f psd (PrimFloat.mul base_f (Z2float h)) band_width).
Proof.
  intros Hfi Hhi. unfold channel_values.
  apply join_lookup_Some_same_length'.
  - apply Forall_fmap, Forall_forall. intros x _. simpl. by rewrite length_fmap.
  - by eapply lookup_lt_Some.
  - eexists. rewrite list_lookup_fmap, Hfi. split; [done|].
    by rewrite list_lookup_fmap, Hhi.
Qed.

Lemma channel_feats_spec X fs target_freqs harmonic_multipliers band_width
    t ch sig f psd :
  Forall representable harmonic_multipliers ->
  getitem3 X t ch = Ok sig ->
  welch sig fs (min 512 (n_samples X)) = Ok (f, psd) ->
  length f = length psd ->
  channel_feats X fs target_freqs harmonic_multipliers band_width t ch =
  Ok (channel_values f psd target_freqs harmonic_multipliers band_width).
Proof.
  intros Hhm Hsig Hw Hlen. unfold channel_feats, channel_values.
  rewrite Hsig. cbn -[Nat.min]. rewrite Hw. cbn -[Nat.min].
  rewrite (mapM_pure _ (fun base_f =>
    (fun h => band_mean f psd (PrimFloat.mul base_f (Z2float h)) band_width)
      <$> harmonic_multipliers)); [done|].
  apply Forall_forall. intros base_f _. apply mapM_pure.
  eapply Forall_impl; [exact Hhm|]. intros h Hh. by apply feature_spec.
Qed.

Lemma wf_getitem3 (X : ndarray3) (t ch : nat) :
  wf X -> t < n_trials X -> ch < n_channels X ->
  exists sig, getitem3 X t ch = Ok sig /\ length sig = n_samples X.
Proof.
  intros [Hn Hitems] Ht Hch. unfold getitem3.
  destruct (lookup_lt_is_Some_2 (items X) t) as [trial Htrial]; [lia|].
  rewrite Forall_lookup in Hitems.
  destruct (Hitems _ _ Htrial) as [Hc Hsigs].
  destruct (lookup_lt_is_Some_2 trial ch) as [sig Hsig]; [lia|].
  exists sig. rewrite (proj2 (getitem_Ok _ _ _) Htrial). simpl.
  split; [by apply getitem_Ok|].
  rewrite Forall_lookup in Hsigs. eauto.
Qed.

Lemma getitem3_bounds (X : ndarray3) (t ch : nat) sig :
  wf X -> getitem3 X t ch = Ok sig -> t < n_trials X /\ ch < n_channels X.
Proof.
  intros [Hn Hitems] (trial & Htrial%getitem_Ok & Hsig%getitem_Ok)%bind_Ok.
  rewrite Forall_lookup in Hitems.
  destruct (Hitems _ _ Htrial) as [Hc _].
  apply lookup_lt_Some in Htrial, Hsig. lia.
Qed.

Lemma trial_feats_total X fs target_freqs harmonic_multipliers band_width t :
  wf X -> estimator_ok X fs -> Forall representable harmonic_multipliers ->
  t < n_trials X ->
  exists row,
    trial_feats X fs target_freqs harmonic_multipliers band_width t = Ok row.
Proof.
  intros Hwf Hest Hhm Ht. unfold trial_feats.
  destruct (mapM_total
    (channel_feats X fs target_freqs harmonic_multipliers band_width t)
    (seq 0 (n_channels X))) as [ls Hls].
  - apply Forall_forall. intros ch Hch%elem_of_seq.
    destruct (wf_getitem3 X t ch) as (sig & Hsig & _); [done|done|lia|].
    destruct (Hest _ _ _ Hsig) as (f & psd & Hw & Hlen).
    eexists. by eapply channel_feats_spec.
  - exists (mjoin ls). by rewrite Hls.
Qed.

Lemma trial_feats_lookup X fs target_freqs harmonic_multipliers band_width
    t row ch fi hi sig f psd base_f h :
  wf X -> Forall representable harmonic_multipliers ->
  trial_feats X fs target_freqs harmonic_multipliers band_width t = Ok row ->
  getitem3 X t ch = Ok sig ->
  welch sig fs (min 512 (n_samples X)) = Ok (f, psd) ->
  length f = length psd ->
  target_freqs !! fi = Some base_f -> harmonic_multipliers !! hi = Some h ->
  row !! (ch * (length target_freqs * length harmonic_multipliers)
          + fi * length harmonic_multipliers + hi) =
  Some (band_mean f psd (PrimFloat.mul base_f (Z2float h)) band_width).
Proof.
  intros Hwf Hhm Hrow Hsig Hw Hlen Hfi Hhi.
  apply fmap_Ok in Hrow as (ls & Hls & ->).
  destruct (getitem3_bounds X t ch sig Hwf Hsig) as [_ Hch].
  destruct (mapM_lookup _ _ _ ch ch Hls) as (l & Hl & Hch').
  { by apply lookup_seq_lt. }
  rewrite (channel_feats_spec _ _ _ _ _ _ _ sig f psd) in Hch' by done.
  injection Hch' as <-.
  rewrite <- Nat.add_assoc.
  apply join_lookup_Some_same_length'.
  - apply mapM_Ok in Hls. clear -Hls.
    induction Hls as [|c l' ? ? Hl' _ IH]; constructor; [|done].
    by eapply channel_feats_length.
  - apply lookup_lt_Some in Hfi, Hhi. nia.
  - exists (channel_values f psd target_freqs harmonic_multipliers band_width).
    split; [done|]. by apply channel_values_lookup.
Qed.

Lemma extract_total X fs target_freqs harmonic_multipliers band_width :
  wf X -> estimator_ok X fs -> Forall representable harmonic_multipliers ->
  exists feats,
    extract_ssvep_features X fs target_freqs harmonic_multipliers band_width
      = Ok feats /\
    length feats = n_trials X /\
    forall t row, feats !! t = Some row ->
      t < n_trials X /\
      trial_feats X fs target_freqs harmonic_multipliers band_width t = Ok row.
Proof.
  intros Hwf Hest Hhm. rewrite extract_rows.
  destruct (mapM_total
    (trial_feats X fs target_freqs harmonic_multipliers band_width)
    (seq 0 (n_trials X))) as [feats Hfeats].
  - apply Forall_forall. intros t Ht%elem_of_seq.
    apply trial_feats_total; [done..|lia].
  - exists feats. split; [done|].
    pose proof (mapM_length _ _ _ Hfeats) as Hlen. rewrite length_seq in Hlen.
    split; [done|]. intros t row Hrow.
    assert (t < n_trials X) as Ht by (apply lookup_lt_Some in Hrow; lia).
    split; [done|].
    destruct (mapM_lookup _ _ _ t t Hfeats) as (row' & Hrow' & Htf).
    { by apply lookup_seq_lt. }
    congruence.
Qed.

(** *** Extraction of a single trial *)

Lemma mapM_seq_items {A B} (f : nat -> result B) (g : A -> result B)
    (l : list A) (a : nat) :
  (forall i x, l !! i = Some x -> f (a + i) = g x) ->
  mapM f (seq a (length l)) = mapM g l.
Proof.
  revert a. induction l as [|x l IH]; intros a Hfg; [done|].
  cbn [length seq]. rewrite !mapM_cons.
  rewrite <- (Hfg 0 x eq_refl), Nat.add_0_r.
  rewrite (IH (S a)); [done|].
  intros i y Hy. rewrite <- (Hfg (S i) y Hy). f_equal. lia.
Qed.

Lemma trial_feats_single X fs target_freqs harmonic_multipliers band_width
    t trial :
  items X !! t = Some trial ->
  trial_feats X fs target_freqs harmonic_multipliers band_width t =
  trial_feats (single_trial X trial) fs target_freqs harmonic_multipliers
              band_width 0.
Proof.
  intros Htrial. unfold trial_feats. f_equal. apply mapM_ext_in.
  apply Forall_forall. intros ch _. unfold channel_feats, getitem3.
  by rewrite (proj2 (getitem_Ok _ _ _) Htrial).
Qed.

Lemma extract_single X fs target_freqs harmonic_multipliers band_width trial :
  (feats ← extract_ssvep_features (single_trial X trial) fs target_freqs
             harmonic_multipliers band_width;
   getitem feats 0) =
  trial_feats (single_trial X trial) fs target_freqs harmonic_multipliers
              band_width 0.
Proof.
  rewrite extract_rows. cbn [n_trials single_trial seq].
  rewrite mapM_cons.
  by destruct (trial_feats _ _ _ _ _ _).
Qed.

(** *** Shape and ordering of the feature matrix *)

(** C1. For a well-formed batch on which the estimator succeeds and multipliers
    that convert to finite floats, the extraction returns one row per trial;
    each row has [n_channels * n_target_freqs * n_harmonics] entries, a number
    in which the sample count does not occur; and the entry at flat index
    [ch * (F * H) + fi * H + hi] is the band power computed from the PSD of
    channel [ch] for the [fi]-th target frequency and the [hi]-th harmonic. *)
Theorem extract_shape_and_order (X : ndarray3) (fs : Z)
    (target_freqs : list float) (harmonic_multipliers : list Z)
    (band_width : float) :
  wf X -> estimator_ok X fs -> Forall representable harmonic_multipliers ->
  exists feats,
    extract_ssvep_features X fs target_freqs harmonic_multipliers band_width
      = Ok feats /\
    length feats = n_trials X /\
    forall t row, feats !! t = Some row ->
      length row =
        n_channels X * length target_freqs * length harmonic_multipliers /\
      forall ch fi hi,
        ch < n_channels X -> fi < length target_freqs ->
        hi < length harmonic_multipliers ->
        exists sig f psd base_f h v,
          getitem3 X t ch = Ok sig /\
          welch sig fs (min 512 (n_samples X)) = Ok (f, psd) /\
          target_freqs !! fi = Some base_f /\
          harmonic_multipliers !! hi = Some h /\
          feature f psd band_width base_f h = Ok v /\
          row !! (ch * (length target_freqs * length harmonic_multipliers)
                  + fi * length harmonic_multipliers + hi) = Some v.
Proof.
  intros Hwf Hest Hhm.
  destruct (extract_total X fs target_freqs harmonic_multipliers band_width)
    as (feats & Hfeats & Hlen & Hrows); [done..|].
  exists feats. split; [done|]. split; [done|].
  intros t row Hrow. destruct (Hrows t row Hrow) as [Ht Htf]. split.
  { rewrite <- Nat.mul_assoc. by eapply trial_feats_length. }
  intros ch fi hi Hch Hfi Hhi.
  destruct (wf_getitem3 X t ch Hwf Ht Hch) as (sig & Hsig & _).
  destruct (Hest _ _ _ Hsig) as (f & psd & Hw & Hfp).
  destruct (lookup_lt_is_Some_2 target_freqs fi Hfi) as [base_f Hbase].
  destruct (lookup_lt_is_Some_2 harmonic_multipliers hi Hhi) as [h Hh].
  exists sig, f, psd, base_f, h.
  eexists. repeat (split; [done|]). split.
  - apply feature_spec; [done|].
    rewrite Forall_lookup in Hhm. by eapply Hhm.
  - by eapply trial_feats_lookup.
Qed.

(** *** Value of one feature *)

(** C3. Under the same conditions the feature of channel [ch], target frequency
    [base_f] and harmonic [h] is computed from the Welch estimate taken with
    segment length [min 512 n_samples]. With [freq = base_f * h], and with
    [bins] the PSD values of the frequency bins [x] of that estimate that lie
    in the closed interval [freq - band_width <= x <= freq + band_width], both
    ends included, the feature is [0.0] when [bins] is empty and the mean of
    [bins] otherwise. The interval is written out here; that the index
    selection of the code picks exactly these bins is part of the proof. *)
Theorem feature_is_band_mean (X : ndarray3) (fs : Z)
    (target_freqs : list float) (harmonic_multipliers : list Z)
    (band_width : float) :
  wf X -> estimator_ok X fs -> Forall representable harmonic_multipliers ->
  exists feats,
    extract_ssvep_features X fs target_freqs harmonic_multipliers band_width
      = Ok feats /\
    forall t row ch fi hi sig f psd base_f h,
      feats !! t = Some row ->
      getitem3 X t ch = Ok sig ->
      welch sig fs (min 512 (n_samples X)) = Ok (f, psd) ->
      target_freqs !! fi = Some base_f ->
      harmonic_multipliers !! hi = Some h ->
      let freq := PrimFloat.mul base_f (Z2float h) in
      let lower := PrimFloat.sub freq band_width in
      let upper := PrimFloat.add freq band_width in
      let bins :=
        (filter (fun bin : float * float =>
                   PrimFloat.leb lower bin.1 = true /\
                   PrimFloat.leb bin.1 upper = true) (zip f psd)).*2 in
      let v := row !! (ch * (length target_freqs * length harmonic_multipliers)
                       + fi * length harmonic_multipliers + hi) in
      (bins = [] -> v = Some 0%float) /\
      (bins <> [] -> v = Some (np_mean bins)).
Proof.
  intros Hwf Hest Hhm.
  destruct (extract_total X fs target_freqs harmonic_multipliers band_width)
    as (feats & Hfeats & _ & Hrows); [done..|].
  exists feats. split; [done|].
  intros t row ch fi hi sig f psd base_f h Hrow Hsig Hw Hbase Hh freq lower
    upper bins v.
  destruct (Hrows t row Hrow) as [_ Htf].
  destruct (Hest _ _ _ Hsig) as (f' & psd' & Hw' & Hfp).
  rewrite Hw in Hw'. injection Hw' as <- <-.
  assert (v = Some (band_mean f psd freq band_width)) as Hv
    by (by eapply trial_feats_lookup).
  unfold band_mean in Hv. rewrite bins_in_band_closed_interval in Hv.
  fold lower upper bins in Hv.
  split; intros Hbins.
  - by rewrite Hbins in Hv.
  - by destruct bins.
Qed.

(** *** Locality *)

(** C10. Extracting a well-formed batch is extracting each of its trials alone,
    as a batch of size one with the same parameters, and stacking the rows in
    order; the first trial whose extraction raises decides the exception. *)
Theorem extract_is_stacked_single_trials (X : ndarray3) (fs : Z)
    (target_freqs : list float) (harmonic_multipliers : list Z)
    (band_width : float) :
  wf X ->
  extract_ssvep_features X fs target_freqs harmonic_multipliers band_width =
  mapM (fun trial =>
          feats ← extract_ssvep_features (single_trial X trial) fs target_freqs
                    harmonic_multipliers band_width;
          getitem feats 0)
       (items X).
Proof.
  intros [Hn _]. rewrite extract_rows, <- Hn.
  apply mapM_seq_items. intros t trial Htrial.
  rewrite extract_single. by apply trial_feats_single.
Qed.

End Extract.

(** *** Determinism *)

Lemma band_power_ext (mean1 mean2 : list float -> float) f psd freq band_width :
  (forall l, mean1 l = mean2 l) ->
  band_power mean1 f psd freq band_width = band_power mean2 f psd freq band_width.
Proof.
  intros Hmean. unfold band_power. case_decide; [|done].
  destruct (take_idx _ _); simpl; [|done]. by rewrite Hmean.
Qed.

Lemma trial_feats_ext
    (welch1 welch2 : list float -> Z -> nat -> result (list float * list float))
    (mean1 mean2 : list float -> float) X fs target_freqs harmonic_multipliers
    band_width t :
  (forall ch sig, getitem3 X t ch = Ok sig ->
     welch1 sig fs (min 512 (n_samples X)) = welch2 sig fs (min 512 (n_samples X))) ->
  (forall l, mean1 l = mean2 l) ->
  trial_feats welch1 mean1 X fs target_freqs harmonic_multipliers band_width t =
  trial_feats welch2 mean2 X fs target_freqs harmonic_multipliers band_width t.
Proof.
  intros Hw Hmean. unfold trial_feats. f_equal. apply mapM_ext_in.
  apply Forall_forall. intros ch _. unfold channel_feats.
  destruct (getitem3 X t ch) as [sig|e] eqn:Hsig; [|done].
  cbn -[Nat.min]. rewrite (Hw ch sig Hsig).
  destruct (welch2 sig fs _) as [[f psd]|e]; [|done].
  cbn -[Nat.min]. f_equal. apply mapM_ext_in.
  apply Forall_forall. intros base_f _. apply mapM_ext_in.
  apply Forall_forall. intros h _. unfold feature.
  destruct (float_mul_int base_f h); [|done]. by apply band_power_ext.
Qed.

(** C4. Two calls on identical inputs return identical results (identical
    matrices, or the same exception): the result is a function of the inputs
    and of what the spectral estimator and the mean return on the channels of
    the batch, and of nothing else. *)
Theorem extract_deterministic
    (welch1 welch2 : list float -> Z -> nat -> result (list float * list float))
    (mean1 mean2 : list float -> float)
    (X X' : ndarray3) (fs fs' : Z) (target_freqs target_freqs' : list float)
    (harmonic_multipliers harmonic_multipliers' : list Z)
    (band_width band_width' : float) :
  X = X' -> fs = fs' -> target_freqs = target_freqs' ->
  harmonic_multipliers = harmonic_multipliers' -> band_width = band_width' ->
  (forall t ch sig, getitem3 X t ch = Ok sig ->
     welch1 sig fs (min 512 (n_samples X)) = welch2 sig fs (min 512 (n_samples X))) ->
  (forall l, mean1 l = mean2 l) ->
  extract_ssvep_features welch1 mean1 X fs target_freqs harmonic_multipliers
    band_width =
  extract_ssvep_features welch2 mean2 X' fs' target_freqs' harmonic_multipliers'
    band_width'.
Proof.
  intros <- <- <- <- <- Hw Hmean. rewrite !extract_rows.
  apply mapM_ext_in, Forall_forall. intros t _.
  apply trial_feats_ext; [|done]. intros ch sig. apply Hw.
Qed.

(** *** The theorems at the concrete batch *)

Ltac solve_wf := split; [reflexivity | repeat constructor].

Ltac solve_estimator_ok :=
  let H := fresh "H" in
  intros [|[|?]] [|?] ? H; cbv in H; try discriminate H;
  injection H as <-; eexists _, _; split; reflexivity.

Ltac solve_representable := repeat constructor.

Lemma extract_shape_and_order_witness :
  wf X2 /\ estimator_ok axis_estimator X2 4 /\
  Forall representable [1; 2]%Z /\
  exists feats,
    extract_ssvep_features axis_estimator left_mean X2 4 [1; 5]%float [1; 2]%Z
      0.5%float = Ok feats /\
    length feats = n_trials X2 /\
    forall t row, feats !! t = Some row ->
      length row = n_channels X2 * 2 * 2 /\
      forall ch fi hi,
        ch < n_channels X2 -> fi < 2 -> hi < 2 ->
        exists sig f psd base_f h v,
          getitem3 X2 t ch = Ok sig /\
          axis_estimator sig 4 (min 512 (n_samples X2)) = Ok (f, psd) /\
          [1; 5]%float !! fi = Some base_f /\
          [1; 2]%Z !! hi = Some h /\
          feature left_mean f psd 0.5%float base_f h = Ok v /\
          row !! (ch * (2 * 2) + fi * 2 + hi) = Some v.
Proof.
  assert (wf X2) as Hwf by solve_wf.
  assert (estimator_ok axis_estimator X2 4) as Hest by solve_estimator_ok.
  assert (Forall representable [1; 2]%Z) as Hhm by solve_representable.
  repeat (split; [assumption|]).
  exact (extract_shape_and_order axis_estimator left_mean X2 4 [1; 5]%float
           [1; 2]%Z 0.5%float Hwf Hest Hhm).
Defined.

(** A band with a bin on each of its ends: at four samples a second the
    estimate of a trial of [X2] has the bins 0, 1 and 2 Hz, and the band of
    half-width 1 around 1 Hz is [[0, 2]]. *)
Lemma feature_is_band_mean_witness :
  wf X2 /\ estimator_ok axis_estimator X2 4 /\
  Forall representable [1; 2]%Z /\
  exists feats,
    extract_ssvep_features axis_estimator left_mean X2 4 [1; 5]%float [1; 2]%Z
      1%float = Ok feats /\
    forall t row ch fi hi sig f psd base_f h,
      feats !! t = Some row ->
      getitem3 X2 t ch = Ok sig ->
      axis_estimator sig 4 (min 512 (n_samples X2)) = Ok (f, psd) ->
      [1; 5]%float !! fi = Some base_f ->
      [1; 2]%Z !! hi = Some h ->
      let freq := PrimFloat.mul base_f (Z2float h) in
      let lower := PrimFloat.sub freq 1 in
      let upper := PrimFloat.add freq 1 in
      let bins :=
        (filter (fun bin : float * float =>
                   PrimFloat.leb lower bin.1 = true /\
                   PrimFloat.leb bin.1 upper = true) (zip f psd)).*2 in
      let v := row !! (ch * (2 * 2) + fi * 2 + hi) in
      (bins = [] -> v = Some 0%float) /\
      (bins <> [] -> v = Some (left_mean bins)).
Proof.
  assert (wf X2) as Hwf by solve_wf.
  assert (estimator_ok axis_estimator X2 4) as Hest by solve_estimator_ok.
  assert (Forall representable [1; 2]%Z) as Hhm by solve_representable.
  repeat (split; [assumption|]).
  exact (feature_is_band_mean axis_estimator left_mean X2 4 [1; 5]%float
           [1; 2]%Z 1%float Hwf Hest Hhm).
Defined.

(** The same extraction, run on the first trial, whose PSD is 1, 2, 3 at 0, 1
    and 2 Hz: the band [[0, 2]] takes the bins at both of its ends (mean 2),
    the band [[1, 3]] takes the bin at its lower end (mean 2.5), and the bands
    around 5 and 10 Hz hold no bin. *)
Example extract_X2_band_ends :
  (fun feats => feats !! 0)
  <$> extract_ssvep_features axis_estimator left_mean X2 4 [1; 5]%float
        [1; 2]%Z 1%float
  = Ok (Some [2; 2.5; 0; 0]%float).
Proof. vm_compute. reflexivity. Qed.

Lemma extract_is_stacked_single_trials_witness :
  wf X2 /\
  extract_ssvep_features axis_estimator left_mean X2 4 [1; 5]%float [1; 2]%Z
    0.5%float =
  mapM (fun trial =>
          feats ← extract_ssvep_features axis_estimator left_mean
                    (single_trial X2 trial) 4 [1; 5]%float [1; 2]%Z 0.5%float;
          getitem feats 0)
       (items X2).
Proof.
  assert (wf X2) as Hwf by solve_wf.
  split; [assumption|].
  exact (extract_is_stacked_single_trials axis_estimator left_mean X2 4
           [1; 5]%float [1; 2]%Z 0.5%float Hwf).
Defined.

Lemma extract_deterministic_witness :
  extract_ssvep_features axis_estimator left_mean X2 4 [1; 5]%float [1; 2]%Z
    0.5%float =
  extract_ssvep_features four_sample_estimator left_mean X2 4 [1; 5]%float
    [1; 2]%Z 0.5%float.
Proof.
  apply (extract_deterministic axis_estimator four_sample_estimator
           left_mean left_mean X2 X2 4 4 [1; 5]%float [1; 5]%float
           [1; 2]%Z [1; 2]%Z 0.5%float 0.5%float); try reflexivity.
  intros [|[|?]] [|?] ? H; cbv in H; try discriminate H;
    injection H as <-; reflexivity.
Defined.

(** The batch above, run. *)
Example extract_X2 :
  extract_ssvep_features axis_estimator left_mean X2 4 [1; 5]%float [1; 2]%Z
    0.5%float
  = Ok [ [2; 3; 0; 0]%float; [8; 0.25; 0; 0]%float ].
Proof. vm_compute. reflexivity. Qed.

End Features.

(** ** backend/app/main.py: the WebSocket manager *)

Module ConnectionManager.

(** A [WebSocket] object, known by its identity: [in] and [list.remove]
    compare connections by identity. *)
Definition WebSocket : Type := nat.

(** [self.active_connections] *)
Abbreviation t := (list WebSocket).

Definition init : t := [].

(** [list.remove(x)]: the first occurrence goes, [ValueError] when there is
    none. *)
Fixpoint remove_first (x : WebSocket) (l : list WebSocket) : list WebSocket :=
  match l with
  | [] => []
  | y :: l' => if decide (y = x) then l' else y :: remove_first x l'
  end.

Definition list_remove (x : WebSocket) (l : t) : result unit * t :=
  if decide (x ∈ l) then (Ok (), remove_first x l) else (Raise ValueError, l).

(** [connect]: the handshake is accepted, then the connection is appended. An
    exception of [accept] leaves the list as it was. *)
Definition connect (accept : WebSocket -> result unit) (websocket : WebSocket)
    (self : t) : result unit * t :=
  match accept websocket with
  | Ok _ => (Ok (), self ++ [websocket])
  | Raise e => (Raise e, self)
  end.

Definition disconnect (websocket : WebSocket) (self : t) : result unit * t :=
  if decide (websocket ∈ self) then list_remove websocket self
  else (Ok (), self).

Section Broadcast.

Variable Message : Type.

(** What a broadcast does, in order: a send that returned, a send that
    raised, a call of [disconnect] by the clean-up loop. *)
Inductive event : Type :=
  | Sent (ws : WebSocket) (message : Message)
  | Failed (ws : WebSocket) (message : Message) (e : exn)
  | Pruned (ws : WebSocket).

(** How a call ends: what it returned or raised, the events it caused, and
    [self.active_connections] afterwards. *)
Record outcome (R : Type) : Type := {
  returned : result R;
  events : list event;
  connections : list WebSocket
}.
Arguments returned {R} o.
Arguments events {R} o.
Arguments connections {R} o.

(** [await ws.send_json(message)] *)
Variable send_json : WebSocket -> Message -> result unit.

(** The first loop: [try: await ws.send_json(message)] /
    [except Exception: disconnected.append(ws)]. It ends with the list
    [disconnected], or with the exception the handler does not catch. *)
Fixpoint send_all (message : Message) (conns : list WebSocket)
    (log : list event) (disconnected : list WebSocket)
  : list event * result (list WebSocket) :=
  match conns with
  | [] => (log, Ok disconnected)
  | ws :: rest =>
      match send_json ws message with
      | Ok _ => send_all message rest (log ++ [Sent ws message]) disconnected
      | Raise e =>
          if is_Exception e then
            send_all message rest (log ++ [Failed ws message e])
                     (disconnected ++ [ws])
          else (log ++ [Failed ws message e], Raise e)
      end
  end.

(** The second loop: [for ws in disconnected: self.disconnect(ws)]. *)
Fixpoint prune (disconnected : list WebSocket) (log : list event) (self : t)
  : outcome unit :=
  match disconnected with
  | [] => {| returned := Ok (); events := log; connections := self |}
  | ws :: rest =>
      match disconnect ws self with
      | (Ok _, self') => prune rest (log ++ [Pruned ws]) self'
      | (Raise e, self') =>
          {| returned := Raise e; events := log ++ [Pruned ws];
             connections := self' |}
      end
  end.

Definition broadcast_json (message : Message) (self : t) : outcome unit :=
  match send_all message self [] [] with
  | (log, Ok disconnected) => prune disconnected log self
  | (log, Raise e) =>
      {| returned := Raise e; events := log; connections := self |}
  end.

(** The connections a log shows a delivery attempt to, in order. *)
Definition attempts (log : list event) : list WebSocket :=
  omap (fun ev => match ev with
                  | Sent ws _ | Failed ws _ _ => Some ws
                  | Pruned _ => None
                  end) log.

(** The connections a log shows delivered to. *)
Definition delivered (log : list event) : list WebSocket :=
  omap (fun ev => match ev with Sent ws _ => Some ws | _ => None end) log.

Definition send_ok (message : Message) (ws : WebSocket) : bool :=
  match send_json ws message with Ok _ => true | Raise _ => false end.

Definition send_event (message : Message) (ws : WebSocket) : event :=
  match send_json ws message with
  | Ok _ => Sent ws message
  | Raise e => Failed ws message e
  end.

End Broadcast.

Global Arguments returned {Message R} o.
Global Arguments events {Message R} o.
Global Arguments connections {Message R} o.

(** *** Sequences of operations on the manager *)

Inductive op (Message : Type) : Type :=
  | Register (accept : WebSocket -> result unit) (ws : WebSocket)
  | Unregister (ws : WebSocket)
  | Broadcast (send_json : WebSocket -> Message -> result unit)
              (message : Message).
Global Arguments Register {Message} accept ws.
Global Arguments Unregister {Message} ws.
Global Arguments Broadcast {Message} send_json message.

(** The list after one operation, whether the operation returned or raised. *)
Definition step {Message : Type} (o : op Message) (s : t) : t :=
  match o with
  | Register accept ws => (connect accept ws s).2
  | Unregister ws => (disconnect ws s).2
  | Broadcast send_json message =>
      connections (broadcast_json Message send_json message s)
  end.

Definition run {Message : Type} (ops : list (op Message)) (s : t) : t :=
  foldl (fun s o => step o s) s ops.

(** Every [Register] of the sequence, run from [s], finds its connection
    absent from the list, or its handshake refused. *)
Fixpoint registers_absent {Message : Type} (ops : list (op Message)) (s : t)
  : Prop :=
  match ops with
  | [] => True
  | o :: ops' =>
      match o with
      | Register accept ws => ws ∉ s \/ exists e, accept ws = Raise e
      | _ => True
      end /\ registers_absent ops' (step o s)
  end.

(** *** The connections of the program

    The connections that reach [connect] are the [WebSocket] objects that
    Starlette makes, one for each client of [/ws], and [websocket_endpoint] is
    the only caller. [WebSocket.accept] is allowed once in the life of such an
    object: the object leaves its state CONNECTING when the handshake has been
    accepted, and an [accept] in any later state raises [RuntimeError]. So the
    program is the manager's list together with the objects whose [accept] has
    returned. *)
Record server : Type := {
  accepted : list WebSocket;
  active_connections : t
}.

Definition startup : server := {| accepted := []; active_connections := init |}.

(** [await websocket.accept()] on an object of the program; [handshake] is how
    a first handshake with the client ends. *)
Definition websocket_accept (handshake : WebSocket -> result unit)
    (accepted : list WebSocket) (websocket : WebSocket) : result unit :=
  if decide (websocket ∈ accepted) then Raise RuntimeError
  else handshake websocket.

(** One operation on the program. *)
Definition serve {Message : Type} (o : op Message) (srv : server) : server :=
  match o with
  | Register handshake ws =>
      match connect (websocket_accept handshake (accepted srv)) ws
                    (active_connections srv) with
      | (Ok _, s) =>
          {| accepted := ws :: accepted srv; active_connections := s |}
      | (Raise _, s) =>
          {| accepted := accepted srv; active_connections := s |}
      end
  | _ => {| accepted := accepted srv;
            active_connections := step o (active_connections srv) |}
  end.

Definition serve_all {Message : Type} (ops : list (op Message)) (srv : server)
  : server :=
  foldl (fun srv o => serve o srv) srv ops.

(** *** Concrete transports *)

(** A handshake that is always accepted. *)
Definition always_accepts (ws : WebSocket) : result unit := Ok ().

(** A transport on which every send to connection [2] fails. *)
Definition send_fails_on_2 (ws : WebSocket) (message : string) : result unit :=
  if decide (ws = 2) then Raise RuntimeError else Ok ().

(** *** [disconnect] *)

Lemma remove_first_NoDup (x : WebSocket) (l : list WebSocket) :
  NoDup l -> remove_first x l = filter (fun y => y <> x) l.
Proof.
  induction 1 as [|y l Hy Hl IH]; [done|]. simpl.
  case_decide as Hyx.
  - subst y. rewrite filter_cons_False by (intros H; by apply H).
    symmetry. clear IH Hl. induction l as [|z l IH]; [done|].
    rewrite not_elem_of_cons in Hy. destruct Hy as [Hz Hx].
    rewrite filter_cons_True by done. f_equal. by apply IH.
  - rewrite filter_cons_True by done. by f_equal.
Qed.

Lemma remove_first_absent (x : WebSocket) (l : list WebSocket) :
  x ∉ l -> remove_first x l = l.
Proof.
  induction l as [|y l IH]; [done|].
  rewrite not_elem_of_cons. intros [Hxy Hx]. simpl.
  rewrite decide_False by done. f_equal. by apply IH.
Qed.

Lemma remove_first_sublist (x : WebSocket) (l : list WebSocket) :
  remove_first x l `sublist_of` l.
Proof.
  induction l as [|y l IH]; [done|]. simpl. case_decide.
  - by apply sublist_cons.
  - by apply sublist_skip.
Qed.

Lemma disconnect_returns (ws : WebSocket) (s : t) : (disconnect ws s).1 = Ok ().
Proof.
  unfold disconnect, list_remove. by repeat case_decide.
Qed.

Lemma disconnect_state (ws : WebSocket) (s : t) :
  (disconnect ws s).2 = remove_first ws s.
Proof.
  unfold disconnect, list_remove. repeat case_decide; try done.
  simpl. symmetry. by apply remove_first_absent.
Qed.

Lemma disconnect_eq (ws : WebSocket) (s : t) :
  disconnect ws s = (Ok (), remove_first ws s).
Proof.
  rewrite <- disconnect_returns with (ws := ws) (s := s).
  rewrite <- disconnect_state. by destruct (disconnect ws s).
Qed.

Lemma disconnect_NoDup (ws : WebSocket) (s : t) :
  NoDup s -> NoDup (disconnect ws s).2.
Proof.
  rewrite disconnect_state. intros Hs.
  eapply sublist_NoDup; [done|apply remove_first_sublist].
Qed.

(** *** [broadcast_json] *)

Section BroadcastLaws.

Context {Message : Type} (send_json : WebSocket -> Message -> result unit).

Lemma send_all_spec (message : Message) (conns : list WebSocket)
    (log : list (event Message)) (disconnected : list WebSocket) :
  (forall ws e, ws ∈ conns -> send_json ws message = Raise e ->
                is_Exception e = true) ->
  send_all Message send_json message conns log disconnected =
  (log ++ (send_event Message send_json message <$> conns),
   Ok (disconnected
       ++ filter (fun ws => send_ok Message send_json message ws = false)
                 conns)).
Proof.
  revert log disconnected.
  induction conns as [|ws rest IH]; intros log disconnected Hexc.
  - simpl. by rewrite !app_nil_r.
  - assert (forall ws' e, ws' ∈ rest -> send_json ws' message = Raise e ->
                          is_Exception e = true) as Hrest.
    { intros ws' e Hin. apply Hexc. set_solver. }
    cbn [send_all]. rewrite fmap_cons.
    destruct (send_json ws message) as [[]|e] eqn:Hsend.
    + rewrite IH by done.
      rewrite filter_cons_False by (unfold send_ok; by rewrite Hsend).
      replace (send_event Message send_json message ws)
        with (Sent Message ws message)
        by (unfold send_event; by rewrite Hsend).
      by rewrite <- app_assoc.
    + rewrite (Hexc ws e) by (done || set_solver).
      rewrite IH by done.
      rewrite filter_cons_True by (unfold send_ok; by rewrite Hsend).
      replace (send_event Message send_json message ws)
        with (Failed Message ws message e)
        by (unfold send_event; by rewrite Hsend).
      by rewrite <- !app_assoc.
Qed.

Lemma prune_spec (disconnected : list WebSocket) (log : list (event Message))
    (self : t) :
  NoDup self ->
  prune Message disconnected log self =
  {| returned := Ok (); events := log ++ (Pruned Message <$> disconnected);
     connections := filter (fun ws => ws ∉ disconnected) self |}.
Proof.
  revert log self.
  induction disconnected as [|ws rest IH]; intros log self Hself.
  - cbn [prune]. rewrite fmap_nil, app_nil_r. f_equal. symmetry.
    clear Hself. induction self as [|y self IHs]; [done|].
    rewrite filter_cons_True by apply not_elem_of_nil. by f_equal.
  - cbn [prune]. rewrite disconnect_eq.
    rewrite IH by (eapply sublist_NoDup; [done|apply remove_first_sublist]).
    rewrite fmap_cons, <- app_assoc. f_equal.
    rewrite remove_first_NoDup by done.
    rewrite list_filter_filter. apply list_filter_iff.
    intros y. rewrite not_elem_of_cons. tauto.
Qed.

Lemma filter_iff_in {A} (P1 P2 : A -> Prop) `{!forall x, Decision (P1 x)}
    `{!forall x, Decision (P2 x)} (l : list A) :
  (forall x, x ∈ l -> P1 x <-> P2 x) -> filter P1 l = filter P2 l.
Proof.
  induction l as [|x l IH]; intros HP; [done|].
  assert (P1 x <-> P2 x) as Hx by (apply HP, elem_of_cons; by left).
  rewrite !filter_cons, IH by (intros y Hy; apply HP, elem_of_cons; by right).
  destruct (decide (P1 x)), (decide (P2 x)); [done|tauto|tauto|done].
Qed.

Lemma attempts_cons (ev : event Message) (log : list (event Message)) :
  attempts Message (ev :: log) =
  match ev with
  | Sent _ ws _ | Failed _ ws _ _ => ws :: attempts Message log
  | Pruned _ _ => attempts Message log
  end.
Proof. by destruct ev. Qed.

Lemma delivered_cons (ev : event Message) (log : list (event Message)) :
  delivered Message (ev :: log) =
  match ev with
  | Sent _ ws _ => ws :: delivered Message log
  | _ => delivered Message log
  end.
Proof. by destruct ev. Qed.

Lemma attempts_send_event (message : Message) (l : list WebSocket) :
  attempts Message (send_event Message send_json message <$> l) = l.
Proof.
  induction l as [|ws l IH]; [done|].
  rewrite fmap_cons, attempts_cons, IH. unfold send_event.
  by destruct (send_json ws message).
Qed.

Lemma attempts_Pruned (l : list WebSocket) :
  attempts Message (Pruned Message <$> l) = [].
Proof. by induction l. Qed.

Lemma delivered_send_event (message : Message) (l : list WebSocket) :
  delivered Message (send_event Message send_json message <$> l) =
  filter (fun ws => send_ok Message send_json message ws = true) l.
Proof.
  induction l as [|ws l IH]; [done|].
  rewrite fmap_cons, delivered_cons, filter_cons, IH.
  unfold send_event, send_ok.
  destruct (send_json ws message);
    [by rewrite decide_True by done|by rewrite decide_False by done].
Qed.

Lemma delivered_Pruned (l : list WebSocket) :
  delivered Message (Pruned Message <$> l) = [].
Proof. by induction l. Qed.

Lemma once_in_NoDup (x : WebSocket) (l : list WebSocket) :
  NoDup l -> x ∈ l -> length (filter (fun y => y = x) l) = 1.
Proof.
  induction 1 as [|y l Hy Hl IH]; [set_solver|].
  rewrite filter_cons. intros [->|Hx]%elem_of_cons.
  - rewrite decide_True by done. simpl. f_equal.
    clear IH Hl. induction l as [|z l IH]; [done|].
    rewrite not_elem_of_cons in Hy. destruct Hy as [Hz Hx].
    rewrite filter_cons_False by congruence. by apply IH.
  - rewrite decide_False by (intros ->; done). by apply IH.
Qed.

Lemma prune_NoDup (disconnected : list WebSocket) (log : list (event Message))
    (self : list WebSocket) :
  NoDup self -> NoDup (connections (prune Message disconnected log self)).
Proof.
  intros Hself. rewrite prune_spec by done. by apply NoDup_filter.
Qed.

Lemma broadcast_json_NoDup (message : Message) (self : list WebSocket) :
  NoDup self ->
  NoDup (connections (broadcast_json Message send_json message self)).
Proof.
  intros Hself. unfold broadcast_json.
  destruct (send_all _ _ _ _ _ _) as [log [disconnected|e]]; [|done].
  by apply prune_NoDup.
Qed.

End BroadcastLaws.

(** *** The broadcast, run

    Three connections, the send to the second of which fails, and nobody
    else touching the list. *)

Example broadcast_json_run :
  broadcast_json string send_fails_on_2 "prediction" [1; 2; 3] =
  {| returned := Ok ();
     events := [Sent string 1 "prediction";
                Failed string 2 "prediction" RuntimeError;
                Sent string 3 "prediction";
                Pruned string 2];
     connections := [1; 3] |}.
Proof. reflexivity. Qed.

(** *** No duplicates *)

Lemma step_NoDup {Message : Type} (o : op Message) (s : list WebSocket) :
  NoDup s ->
  match o with
  | Register accept ws => ws ∉ s \/ exists e, accept ws = Raise e
  | _ => True
  end ->
  NoDup (step o s).
Proof.
  intros Hs Ho. destruct o as [accept ws|ws|send_json message]; simpl.
  - unfold connect. destruct Ho as [Hws|[e He]].
    + destruct (accept ws); [|done]. simpl.
      apply NoDup_app. split; [done|]. split; [|apply NoDup_singleton].
      intros x Hx ->%list_elem_of_singleton. done.
    + by rewrite He.
  - by apply disconnect_NoDup.
  - by apply broadcast_json_NoDup.
Qed.

(** What a broadcast leaves is part of what it found. *)
Lemma prune_sublist {Message : Type} (disconnected : list WebSocket)
    (log : list (event Message)) (self : list WebSocket) :
  connections (prune Message disconnected log self) `sublist_of` self.
Proof.
  revert log self. induction disconnected as [|ws rest IH]; intros log self.
  - done.
  - cbn [prune]. rewrite disconnect_eq.
    etrans; [apply IH|apply remove_first_sublist].
Qed.

Lemma broadcast_json_sublist {Message : Type}
    (send_json : WebSocket -> Message -> result unit) (message : Message)
    (self : list WebSocket) :
  connections (broadcast_json Message send_json message self)
    `sublist_of` self.
Proof.
  unfold broadcast_json.
  destruct (send_all _ _ _ _ _ _) as [log [disconnected|e]]; [|done].
  apply prune_sublist.
Qed.

(** The listed connections are duplicate-free and have all had their
    handshake accepted. *)
Definition listed_once (srv : server) : Prop :=
  NoDup (active_connections srv) /\
  forall ws, ws ∈ active_connections srv -> ws ∈ accepted srv.

Lemma serve_listed_once {Message : Type} (o : op Message) (srv : server) :
  listed_once srv -> listed_once (serve o srv).
Proof.
  intros [Hnd Hacc]. destruct o as [handshake ws|ws|send_json message].
  - cbn [serve]. unfold connect, websocket_accept.
    case_decide as Hws; [by split|].
    destruct (handshake ws) as [[]|e]; [|by split].
    split; cbn [active_connections accepted].
    + apply NoDup_app. split; [done|]. split; [|apply NoDup_singleton].
      intros x Hx ->%list_elem_of_singleton. by apply Hws, Hacc.
    + intros x [Hx| ->%list_elem_of_singleton]%elem_of_app.
      * apply elem_of_cons. right. by apply Hacc.
      * apply elem_of_cons. by left.
  - split; cbn [serve step active_connections accepted].
    + by apply disconnect_NoDup.
    + intros x Hx. apply Hacc. rewrite disconnect_state in Hx.
      eapply elem_of_sublist; [exact Hx|apply remove_first_sublist].
  - split; cbn [serve step active_connections accepted].
    + by apply broadcast_json_NoDup.
    + intros x Hx. apply Hacc.
      eapply elem_of_sublist; [exact Hx|apply broadcast_json_sublist].
Qed.

Lemma serve_all_listed_once {Message : Type} (ops : list (op Message))
    (srv : server) :
  listed_once srv -> listed_once (serve_all ops srv).
Proof.
  revert srv. induction ops as [|o ops IH]; intros srv Hsrv; [done|].
  cbn [serve_all foldl]. by apply IH, serve_listed_once.
Qed.

Lemma startup_listed_once : listed_once startup.
Proof.
  split; [constructor|]. intros ws Hws. by apply not_elem_of_nil in Hws.
Qed.

(** C8. The connection list of the program has no duplicate entries in every
    state reached from the start by any sequence of register, unregister and
    broadcast (with its pruning) operations. In particular a register of a
    connection that is in the list adds no second entry for it: [connect]
    itself appends without looking, but the [accept] it awaits first raises
    on a connection whose handshake has been accepted, and every listed
    connection is one. *)
Theorem no_duplicate_connections {Message : Type} (ops : list (op Message)) :
  NoDup (active_connections (serve_all ops startup)) /\
  forall handshake ws,
    ws ∈ active_connections (serve_all ops startup) ->
    connect (websocket_accept handshake (accepted (serve_all ops startup))) ws
            (active_connections (serve_all ops startup))
    = (Raise RuntimeError, active_connections (serve_all ops startup)) /\
    active_connections
      (serve (Register (Message := Message) handshake ws)
             (serve_all ops startup))
    = active_connections (serve_all ops startup).
Proof.
  destruct (serve_all_listed_once ops startup startup_listed_once)
    as [Hnd Hacc].
  split; [done|]. intros handshake ws Hws.
  assert (connect (websocket_accept handshake
                     (accepted (serve_all ops startup))) ws
                  (active_connections (serve_all ops startup))
          = (Raise RuntimeError, active_connections (serve_all ops startup)))
    as Hconnect.
  { unfold connect, websocket_accept. by rewrite decide_True by by apply Hacc. }
  split; [done|]. cbn [serve]. by rewrite Hconnect.
Qed.

(** Two clients register, a broadcast fails on the first and prunes it, the
    first tries to register again and the second hangs up. *)
Example serve_all_run :
  serve_all
    [Register always_accepts 7; Register always_accepts 8;
     Register always_accepts 8;
     Broadcast (fun ws (_ : unit) =>
                  if decide (ws = 7) then Raise RuntimeError else Ok ()) ();
     Register always_accepts 7; Register always_accepts 9; Unregister 8]
    startup
  = {| accepted := [9; 8; 7]; active_connections := [9] |}.
Proof. reflexivity. Qed.

(** *** Unregistering *)

(** C9. [disconnect] is total: on any list and any connection it returns
    without raising, and on a connection that is not in the list it leaves the
    list as it is. It is idempotent on the live list: on every list without
    duplicates, and the list of every state the program reaches is one, a
    second [disconnect] of the same connection returns and leaves the list
    the first one left, without that connection. *)
Theorem unregister_total_and_idempotent {Message : Type}
    (ops : list (op Message)) (ws : WebSocket) :
  (forall s : list WebSocket,
     (disconnect ws s).1 = Ok () /\
     (ws ∉ s -> disconnect ws s = (Ok (), s)) /\
     (NoDup s ->
      disconnect ws (disconnect ws s).2 = disconnect ws s /\
      ws ∉ (disconnect ws s).2)) /\
  let s := active_connections (serve_all ops startup) in
  NoDup s /\
  disconnect ws (disconnect ws s).2 = disconnect ws s /\
  ws ∉ (disconnect ws s).2.
Proof.
  assert (forall s : list WebSocket, NoDup s ->
            disconnect ws (disconnect ws s).2 = disconnect ws s /\
            ws ∉ (disconnect ws s).2) as Hidem.
  { intros s Hnd.
    assert (ws ∉ (disconnect ws s).2) as Hgone.
    { rewrite disconnect_state, remove_first_NoDup by done.
      rewrite list_elem_of_filter. tauto. }
    split; [|done].
    rewrite (disconnect_eq ws s). cbn [snd]. rewrite disconnect_eq. f_equal.
    apply remove_first_absent. by rewrite disconnect_state in Hgone. }
  split.
  - intros s. split; [apply disconnect_returns|]. split; [|apply Hidem].
    intros Hws. rewrite disconnect_eq. f_equal. by apply remove_first_absent.
  - intros s.
    destruct (serve_all_listed_once ops startup startup_listed_once)
      as [Hnd _]. fold s in Hnd.
    split; [done|]. by apply Hidem.
Qed.

(** After the run above the client of connection 9 hangs up, and its endpoint
    is made to unregister it twice. *)
Example unregister_twice_run :
  let s := active_connections
             (serve_all [Register always_accepts 7; Register always_accepts 9;
                         Unregister (Message := unit) 7] startup) in
  s = [9] /\ disconnect 9 s = (Ok (), []) /\
  disconnect 9 (disconnect 9 s).2 = (Ok (), []).
Proof. done. Qed.

End ConnectionManager.

(** ** backend/app/main.py: the prediction endpoint *)

Module Main.

Import Features ConnectionManager.

(** The result of [np.array(req.data, dtype=float)] on a list of lists of
    floats: the empty list gives a one-dimensional array of shape [(0,)], rows
    of one length give a two-dimensional array, and rows of different lengths
    are refused with [ValueError]. *)
Inductive ndarray : Type :=
  | Array1 (values : list float)
  | Array2 (rows cols : nat) (values : list (list float)).

Definition ndim (arr : ndarray) : nat :=
  match arr with
  | Array1 _ => 1
  | Array2 _ _ _ => 2
  end.

Definition np_array (data : list (list float)) : result ndarray :=
  match data with
  | [] => Ok (Array1 [])
  | row :: rows =>
      if decide (Forall (fun r => length r = length row) rows)
      then Ok (Array2 (S (length rows)) (length row) data)
      else Raise ValueError
  end.

(** [arr[np.newaxis, :, :]] *)
Definition newaxis (arr : ndarray) : result ndarray3 :=
  match arr with
  | Array2 rows cols values =>
      Ok {| n_trials := 1; n_channels := rows; n_samples := cols;
            items := [values] |}
  | Array1 _ => Raise IndexError
  end.

(** [np.argmax] on a one-dimensional [float64] array: the scan keeps the first
    maximum and stops at the first NaN, which counts as maximal. *)
Fixpoint argmax_from (ip : list float) (i : nat) (mp : float) (max_ind : nat)
  : nat :=
  match ip with
  | [] => max_ind
  | x :: rest =>
      if negb (PrimFloat.leb x mp) then
        if is_nan x then i else argmax_from rest (S i) x i
      else argmax_from rest (S i) mp max_ind
  end.

Definition np_argmax (a : list float) : result nat :=
  match a with
  | [] => Raise ValueError
  | x :: rest => if is_nan x then Ok 0 else Ok (argmax_from rest 1 x 0)
  end.

(** [class PredictRequest(BaseModel)] *)
Record PredictRequest : Type := {
  data : list (list float);
  model_name : string
}.

(** The dictionary [predict] returns. *)
Record Response : Type := {
  response_model_name : string;
  predicted_label : string;
  class_probabilities : gmap string float
}.

(** [{"type": "prediction", **response}] *)
Record Message : Type := {
  type_ : string;
  payload : Response
}.

(** The status a raised exception reaches the client with: an
    [HTTPException] carries its own, anything else is an internal server
    error. *)
Definition status_of (e : exn) : Z :=
  match e with
  | HTTPException status_code _ => status_code
  | _ => 500
  end.

Definition is_client_error (e : exn) : bool :=
  bool_decide (400 <= status_of e < 500)%Z.

(** A fitted pipeline over class labels of type [Label]: [predict_proba] and
    [classes_]. *)
Record Model (Label : Type) : Type := {
  predict_proba : list (list float) -> result (list (list float));
  classes_ : list Label
}.
Global Arguments predict_proba {Label} m X_feat.
Global Arguments classes_ {Label} m.

(** *** A concrete deployment *)

(** A pipeline that gives every trial the same probabilities, two of them
    tied for the maximum, over the four directions in sorted order. *)
Definition tied_model : Model string :=
  {| predict_proba := fun X_feat =>
       Ok ((fun _ => [0.125; 0.375; 0.125; 0.375]%float) <$> X_feat);
     classes_ := ["down"; "left"; "right"; "up"] |}.

Definition two_models : gmap string (Model string) :=
  {[ "lda" := tied_model; "svm" := tied_model ]}.

Definition trial_1x4 : list (list float) := [[1; 2; 3; 4]%float].

Definition everyone_receives (ws : WebSocket) (message : Message)
  : result unit := Ok ().

(** The response of the concrete deployment to [trial_1x4]. *)
Definition response_1x4 : Response :=
  {| response_model_name := "lda";
     predicted_label := "left";
     class_probabilities :=
       {[ "down" := 0.125%float; "left" := 0.375%float;
          "right" := 0.125%float; "up" := 0.375%float ]} |}.

Section Predict.

(** The class labels of the fitted pipelines, and [str] on them. *)
Variable Label : Type.
Variable str : Label -> string.

(** The module-level dictionary [models]. *)
Variable models : gmap string (Model Label).

Variable welch : list float -> Z -> nat -> result (list float * list float).
Variable np_mean : list float -> float.

(** [{str(cls): float(p) for cls, p in zip(classes, probs)}]: a later pair
    replaces an earlier one with the same key. *)
Definition class_probs_dict (classes : list Label) (probs : list float)
  : gmap string float :=
  foldl (fun d cp => <[str cp.1 := cp.2]> d) ∅ (zip classes probs).

(** The insertions of [class_probs_dict], from any dictionary. *)
Definition insert_all (l : list (Label * float)) (d : gmap string float)
  : gmap string float :=
  foldl (fun d cp => <[str cp.1 := cp.2]> d) d l.

(** Lines 103-132: everything [predict] does before it broadcasts. *)
Definition predict_response (req : PredictRequest) : result Response :=
  arr ← np_array (data req);
  if decide (ndim arr <> 2) then
    Raise (HTTPException 400 "data must be a 2D array: channels x samples")
  else
    X ← newaxis arr;
    X_feat ← extract_ssvep_features welch np_mean X 256
               [10; 12; 15; 20]%float [1; 2; 3]%Z 0.5%float;
    match models !! model_name req with
    | None => Raise (HTTPException 400 "Unknown model_name")
    | Some model =>
        all_probs ← predict_proba model X_feat;
        probs ← getitem all_probs 0;
        let classes := classes_ model in
        let class_probs := class_probs_dict classes probs in
        pred_idx ← np_argmax probs;
        cls ← getitem classes pred_idx;
        let pred_label := str cls in
        Ok {| response_model_name := model_name req;
              predicted_label := pred_label;
              class_probabilities := class_probs |}
    end.

(** [predict]: the response is computed, broadcast to the manager's
    connections, and returned. An exception before the broadcast leaves the
    manager untouched. *)
Definition predict (send_json : WebSocket -> Message -> result unit)
    (req : PredictRequest) (manager : list WebSocket)
  : outcome Message Response :=
  match predict_response req with
  | Raise e => {| returned := Raise e; events := []; connections := manager |}
  | Ok response =>
      let o := broadcast_json Message send_json
                 {| type_ := "prediction"; payload := response |} manager in
      {| returned := (_ ← returned o; Ok response);
         events := events o;
         connections := connections o |}
  end.

(** *** The array built from the request *)

Lemma np_array_2d (data : list (list float)) (rows cols : nat)
    (values : list (list float)) :
  np_array data = Ok (Array2 rows cols values) ->
  wf {| n_trials := 1; n_channels := rows; n_samples := cols;
        items := [values] |}.
Proof.
  destruct data as [|row rest]; [done|]. simpl.
  case_decide as Hrect; [|done]. intros [= <- <- <-].
  split; [done|]. constructor; [|constructor]. split; [done|].
  constructor; [done|exact Hrect].
Qed.

(** *** [np.argmax] *)

Lemma argmax_from_spec (rest pre : list float) (mp : float) (max_ind : nat) :
  Forall (fun q => is_nan q = false) rest -> is_nan mp = false ->
  pre !! max_ind = Some mp ->
  (forall j q, pre !! j = Some q -> PrimFloat.leb q mp = true) ->
  (forall j q, j < max_ind -> pre !! j = Some q -> PrimFloat.ltb q mp = true) ->
  exists p,
    (pre ++ rest) !! argmax_from rest (length pre) mp max_ind = Some p /\
    (forall j q, (pre ++ rest) !! j = Some q -> PrimFloat.leb q p = true) /\
    (forall j q, j < argmax_from rest (length pre) mp max_ind ->
                 (pre ++ rest) !! j = Some q -> PrimFloat.ltb q p = true).
Proof.
  revert pre mp max_ind.
  induction rest as [|x rest IH]; intros pre mp max_ind Hrest Hmp Hmax Hle Hlt.
  - exists mp. rewrite app_nil_r. simpl. eauto.
  - apply Forall_cons in Hrest as [Hx Hrest]. cbn [argmax_from]. rewrite Hx.
    assert (length (pre ++ [x]) = S (length pre)) as Hlen
      by (rewrite length_app; simpl; lia).
    destruct (PrimFloat.leb x mp) eqn:Hxmp; cbn [negb].
    + destruct (IH (pre ++ [x]) mp max_ind) as (p & Hp & Hple & Hplt);
        try done.
      * by apply lookup_app_l_Some.
      * intros j q [Hq|[_ Hq]]%lookup_app_Some; [by eapply Hle|].
        destruct (j - length pre) as [|?]; [|done]. by injection Hq as <-.
      * intros j q Hj [Hq|[Hge _]]%lookup_app_Some; [by eapply Hlt|].
        apply lookup_lt_Some in Hmax. lia.
      * rewrite Hlen, <- app_assoc in *. by exists p.
    + pose proof (FloatOrder.not_leb_ltb x mp Hx Hmp Hxmp) as Hgt.
      destruct (IH (pre ++ [x]) x (length pre)) as (p & Hp & Hple & Hplt);
        try done.
      * by rewrite lookup_app_r, Nat.sub_diag.
      * intros j q [Hq|[_ Hq]]%lookup_app_Some.
        -- apply FloatOrder.ltb_leb.
           eapply FloatOrder.leb_ltb_trans; [by eapply Hle|done].
        -- destruct (j - length pre) as [|?]; [|done]. injection Hq as <-.
           by apply FloatOrder.leb_refl.
      * intros j q Hj [Hq|[Hge _]]%lookup_app_Some; [|lia].
        eapply FloatOrder.leb_ltb_trans; [by eapply Hle|done].
      * rewrite Hlen, <- app_assoc in *. by exists p.
Qed.

Lemma np_argmax_spec (probs : list float) (i : nat) :
  Forall (fun q => is_nan q = false) probs -> np_argmax probs = Ok i ->
  exists p,
    probs !! i = Some p /\
    (forall j q, probs !! j = Some q -> PrimFloat.leb q p = true) /\
    (forall j q, j < i -> probs !! j = Some q -> PrimFloat.ltb q p = true).
Proof.
  destruct probs as [|x rest]; [done|].
  intros [Hx Hrest]%Forall_cons. simpl. rewrite Hx. intros [= <-].
  apply (argmax_from_spec rest [x] x 0); try done.
  - intros [|j] q; [|done]. intros [= <-]. by apply FloatOrder.leb_refl.
  - intros j q Hj. lia.
Qed.

(** *** The dictionary of class probabilities *)

Lemma insert_all_dom (l : list (Label * float)) (d : gmap string float)
    (k : string) :
  k ∈ dom (insert_all l d) <-> k ∈ dom d \/ exists cp, cp ∈ l /\ k = str cp.1.
Proof.
  revert d. induction l as [|cp l IH]; intros d; simpl.
  - split; [by left|]. intros [?|(cp & Hcp & _)]; [done|].
    by apply not_elem_of_nil in Hcp.
  - rewrite IH, dom_insert, elem_of_union, elem_of_singleton. split.
    + intros [[->|Hd]|(cp' & Hcp' & ->)].
      * right. exists cp. split; [by left|done].
      * by left.
      * right. exists cp'. split; [by right|done].
    + intros [Hd|(cp' & [->|Hcp']%elem_of_cons & ->)].
      * left. by right.
      * left. by left.
      * right. by exists cp'.
Qed.

Lemma class_probs_dict_keys (classes : list Label) (probs : list float)
    (k : string) :
  k ∈ dom (class_probs_dict classes probs) <->
  exists i cls p, classes !! i = Some cls /\ probs !! i = Some p /\ k = str cls.
Proof.
  unfold class_probs_dict. fold (insert_all (zip classes probs) ∅).
  rewrite insert_all_dom, dom_empty. split.
  - intros [Hk|([cls p] & Hcp & ->)]; [by apply not_elem_of_empty in Hk|].
    apply list_elem_of_lookup in Hcp as [i Hi].
    apply lookup_zip_with_Some in Hi as (cls' & p' & [= <- <-] & Hc & Hp).
    by exists i, cls, p.
  - intros (i & cls & p & Hc & Hp & ->). right. exists (cls, p). split; [|done].
    apply list_elem_of_lookup. exists i.
    apply lookup_zip_with_Some. by exists cls, p.
Qed.

(** *** The steps of a prediction that returns *)

Lemma predict_response_Ok (req : PredictRequest) (resp : Response) :
  predict_response req = Ok resp ->
  exists rows cols values X_feat model all_probs probs pred_idx cls,
    np_array (data req) = Ok (Array2 rows cols values) /\
    extract_ssvep_features welch np_mean
      {| n_trials := 1; n_channels := rows; n_samples := cols;
         items := [values] |} 256 [10; 12; 15; 20]%float [1; 2; 3]%Z 0.5%float
      = Ok X_feat /\
    models !! model_name req = Some model /\
    predict_proba model X_feat = Ok all_probs /\
    all_probs !! 0 = Some probs /\
    np_argmax probs = Ok pred_idx /\
    classes_ model !! pred_idx = Some cls /\
    resp = {| response_model_name := model_name req;
              predicted_label := str cls;
              class_probabilities :=
                class_probs_dict (classes_ model) probs |}.
Proof.
  unfold predict_response. intros (arr & Harr & H)%bind_Ok.
  case_decide as Hdim; [done|].
  destruct arr as [|rows cols values]; [done|].
  apply bind_Ok in H as (X & [= <-] & H).
  apply bind_Ok in H as (X_feat & Hfeat & H).
  destruct (models !! model_name req) as [model|] eqn:Hmodel; [|done].
  apply bind_Ok in H as (all_probs & Hall & H).
  apply bind_Ok in H as (probs & Hprobs%getitem_Ok & H).
  apply bind_Ok in H as (pred_idx & Hidx & H).
  apply bind_Ok in H as (cls & Hcls%getitem_Ok & [= <-]).
  by exists rows, cols, values, X_feat, model, all_probs, probs, pred_idx, cls.
Qed.

Lemma predict_returned (send_json : WebSocket -> Message -> result unit)
    (req : PredictRequest) (manager : list WebSocket) (resp : Response) :
  returned (predict send_json req manager) = Ok resp ->
  predict_response req = Ok resp.
Proof.
  unfold predict. destruct (predict_response req) as [response|e]; [|done].
  cbn [returned]. by intros (_ & _ & [= ->])%bind_Ok.
Qed.

(** *** Requests that are refused *)

(** What [predict] does with a request whose data has rank other than two:
    status 400, nothing sent, the manager untouched. *)
Lemma predict_wrong_rank (send_json : WebSocket -> Message -> result unit)
    (req : PredictRequest) (manager : list WebSocket) (arr : ndarray) :
  np_array (data req) = Ok arr -> ndim arr <> 2 ->
  predict send_json req manager =
  {| returned :=
       Raise (HTTPException 400 "data must be a 2D array: channels x samples");
     events := []; connections := manager |}.
Proof.
  intros Harr Hdim. unfold predict, predict_response. rewrite Harr. simpl.
  by rewrite decide_True.
Qed.

(** Whenever [predict] raises before the broadcast, nothing is sent. *)
Lemma predict_refused_sends_nothing
    (send_json : WebSocket -> Message -> result unit)
    (req : PredictRequest) (manager : list WebSocket) (e : exn) :
  predict_response req = Raise e ->
  predict send_json req manager =
  {| returned := Raise e; events := []; connections := manager |}.
Proof. intros H. unfold predict. by rewrite H. Qed.

(** C6. For a request whose data is a two-dimensional array on which the
    estimator succeeds and whose model name is not a key of [models], [predict]
    raises the 400 [Unknown model_name], whatever other models are loaded,
    sends nothing and leaves the manager untouched. *)
Theorem predict_unknown_model (send_json : WebSocket -> Message -> result unit)
    (req : PredictRequest) (manager : list WebSocket) (rows cols : nat)
    (values : list (list float)) :
  np_array (data req) = Ok (Array2 rows cols values) ->
  estimator_ok welch
    {| n_trials := 1; n_channels := rows; n_samples := cols;
       items := [values] |} 256 ->
  models !! model_name req = None ->
  predict send_json req manager =
    {| returned := Raise (HTTPException 400 "Unknown model_name");
       events := []; connections := manager |} /\
  is_client_error (HTTPException 400 "Unknown model_name") = true.
Proof.
  intros Harr Hest Hmodel. split; [|done].
  apply predict_refused_sends_nothing.
  unfold predict_response. rewrite Harr. cbn -[extract_ssvep_features].
  destruct (extract_total welch np_mean
    {| n_trials := 1; n_channels := rows; n_samples := cols;
       items := [values] |} 256 [10; 12; 15; 20]%float [1; 2; 3]%Z 0.5%float)
    as (X_feat & -> & _); [by eapply np_array_2d|done|repeat constructor|].
  cbn. by rewrite Hmodel.
Qed.

(** C7. When [predict] returns a response, its [predicted_label] is [str] of
    the class at the index [np.argmax] returns on the probabilities of the
    requested model; when none of them is NaN, that index is the first one
    whose probability no other exceeds. The keys of [class_probabilities] are
    the [str] of the classes that have a probability. *)
Theorem predicted_label_is_first_argmax
    (send_json : WebSocket -> Message -> result unit)
    (req : PredictRequest) (manager : list WebSocket) (resp : Response) :
  returned (predict send_json req manager) = Ok resp ->
  exists model X_feat all_probs probs i cls,
    models !! model_name req = Some model /\
    predict_proba model X_feat = Ok all_probs /\
    all_probs !! 0 = Some probs /\
    np_argmax probs = Ok i /\
    classes_ model !! i = Some cls /\
    predicted_label resp = str cls /\
    (Forall (fun q => is_nan q = false) probs ->
     exists p,
       probs !! i = Some p /\
       (forall j q, probs !! j = Some q -> PrimFloat.leb q p = true) /\
       (forall j q, j < i -> probs !! j = Some q ->
                    PrimFloat.ltb q p = true)) /\
    (forall k, k ∈ dom (class_probabilities resp) <->
       exists j c q, classes_ model !! j = Some c /\ probs !! j = Some q /\
                     k = str c).
Proof.
  intros Hret%predict_returned.
  destruct (predict_response_Ok req resp Hret)
    as (rows & cols & values & X_feat & model & all_probs & probs & i & cls
        & _ & _ & Hmodel & Hall & Hprobs & Hidx & Hcls & ->).
  exists model, X_feat, all_probs, probs, i, cls.
  repeat (split; [done|]). split.
  - intros Hnan. by apply np_argmax_spec.
  - intros k. cbn [class_probabilities]. apply class_probs_dict_keys.
Qed.

End Predict.

(** *** A request with rows of different lengths *)

(** C5 at a request the endpoint accepts as [list[list[float]]] but that is no
    matrix: [np.array] raises [ValueError] before the rank is looked at, so
    the client gets status 500, not the 400 of the rank check. Nothing is
    sent. *)
Theorem predict_ragged_trial_is_server_error (Label : Type)
    (str : Label -> string) (models : gmap string (Model Label))
    (welch : list float -> Z -> nat -> result (list float * list float))
    (np_mean : list float -> float)
    (send_json : WebSocket -> Message -> result unit)
    (name : string) (manager : list WebSocket) :
  predict Label str models welch np_mean send_json
    {| data := [[1; 2]; [3]]%float; model_name := name |} manager =
    {| returned := Raise ValueError; events := []; connections := manager |} /\
  status_of ValueError = 500%Z /\
  is_client_error ValueError = false.
Proof. done. Qed.

(** *** The theorems at the concrete deployment *)

Lemma predict_unknown_model_witness :
  np_array trial_1x4 = Ok (Array2 1 4 trial_1x4) /\
  estimator_ok axis_estimator
    {| n_trials := 1; n_channels := 1; n_samples := 4;
       items := [trial_1x4] |} 256 /\
  two_models !! "knn" = None /\
  predict string id two_models axis_estimator left_mean everyone_receives
    {| data := trial_1x4; model_name := "knn" |} [1; 2] =
    {| returned := Raise (HTTPException 400 "Unknown model_name");
       events := []; connections := [1; 2] |} /\
  is_client_error (HTTPException 400 "Unknown model_name") = true.
Proof.
  assert (np_array trial_1x4 = Ok (Array2 1 4 trial_1x4)) as Harr
    by reflexivity.
  assert (estimator_ok axis_estimator
            {| n_trials := 1; n_channels := 1; n_samples := 4;
               items := [trial_1x4] |} 256) as Hest
    by solve_estimator_ok.
  assert (two_models !! "knn" = None) as Hmodel by reflexivity.
  repeat (split; [assumption|]).
  exact (predict_unknown_model string id two_models axis_estimator left_mean
           everyone_receives {| data := trial_1x4; model_name := "knn" |}
           [1; 2] 1 4 trial_1x4 Harr Hest Hmodel).
Defined.

Lemma predicted_label_is_first_argmax_witness :
  returned (predict string id two_models axis_estimator left_mean
              everyone_receives {| data := trial_1x4; model_name := "lda" |}
              [1; 2]) = Ok response_1x4 /\
  exists model X_feat all_probs probs i cls,
    two_models !! "lda" = Some model /\
    predict_proba model X_feat = Ok all_probs /\
    all_probs !! 0 = Some probs /\
    np_argmax probs = Ok i /\
    classes_ model !! i = Some cls /\
    predicted_label response_1x4 = cls /\
    (Forall (fun q => is_nan q = false) probs ->
     exists p,
       probs !! i = Some p /\
       (forall j q, probs !! j = Some q -> PrimFloat.leb q p = true) /\
       (forall j q, j < i -> probs !! j = Some q ->
                    PrimFloat.ltb q p = true)) /\
    (forall k, k ∈ dom (class_probabilities response_1x4) <->
       exists j c q, classes_ model !! j = Some c /\
                     probs !! j = Some q /\ k = c).
Proof.
  assert (returned (predict string id two_models axis_estimator left_mean
                      everyone_receives
                      {| data := trial_1x4; model_name := "lda" |} [1; 2])
          = Ok response_1x4) as Hret
    by (vm_compute; reflexivity).
  split; [exact Hret|].
  exact (predicted_label_is_first_argmax string id two_models axis_estimator
           left_mean everyone_receives
           {| data := trial_1x4; model_name := "lda" |} [1; 2] response_1x4
           Hret).
Defined.

(** The empty list is a one-dimensional array: status 400, nothing sent. *)
Example predict_empty_data :
  predict string id two_models axis_estimator left_mean everyone_receives
    {| data := []; model_name := "lda" |} [1; 2] =
  {| returned :=
       Raise (HTTPException 400 "data must be a 2D array: channels x samples");
     events := []; connections := [1; 2] |}.
Proof. reflexivity. Qed.

(** A prediction that returns is sent once to every connection. *)
Example predict_broadcasts :
  events (predict string id two_models axis_estimator left_mean
            everyone_receives {| data := trial_1x4; model_name := "lda" |}
            [1; 2]) =
  [Sent Message 1 {| type_ := "prediction"; payload := response_1x4 |};
   Sent Message 2 {| type_ := "prediction"; payload := response_1x4 |}].
Proof. vm_compute. reflexivity. Qed.

End Main.

(** ** More on the WebSocket manager: lists with repeated entries, exceptions
    the handler lets through, histories *)

Module ManagerLaws.

Import ConnectionManager.

(** [for ws in disconnected: self.disconnect(ws)] as one fold. *)
Definition remove_each (disconnected self : list WebSocket) : list WebSocket :=
  foldl (fun s ws => remove_first ws s) self disconnected.


(** *** The endpoint of one connection

    [websocket_endpoint] registers the connection, then waits for texts in a
    loop that only an exception ends; on [WebSocketDisconnect] it unregisters
    the connection, any other exception leaves the function as it is. *)

(** How far the function has come. *)
Inductive endpoint_status : Type :=
  | Receiving
  | Finished (r : result unit).

(** [while True: _ = await websocket.receive_text()] over what the calls of
    [receive_text] give, in order: the exception that ends the loop, if one
    has come. *)
Fixpoint receive_loop (inbound : list (result string)) : option exn :=
  match inbound with
  | [] => None
  | Ok _ :: rest => receive_loop rest
  | Raise e :: _ => Some e
  end.

(** The endpoint on the manager's list. [others] are the operations of the
    other coroutines that run while this one waits in [receive_text]. *)
Definition websocket_endpoint {Message : Type}
    (accept : WebSocket -> result unit) (websocket : WebSocket)
    (inbound : list (result string)) (others : list (op Message))
    (manager : list WebSocket) : endpoint_status * list WebSocket :=
  match connect accept websocket manager with
  | (Raise e, manager1) => (Finished (Raise e), manager1)
  | (Ok _, manager1) =>
      let manager2 := run others manager1 in
      match receive_loop inbound with
      | None => (Receiving, manager2)
      | Some WebSocketDisconnect =>
          let '(r, manager3) := disconnect websocket manager2 in
          (Finished r, manager3)
      | Some e => (Finished (Raise e), manager2)
      end
  end.



Lemma remove_first_perm (x : WebSocket) (l : list WebSocket) :
  x ∈ l -> l ≡ₚ x :: remove_first x l.
Proof.
  induction l as [|y l IH]; [by intros ?%not_elem_of_nil|].
  intros Hx. simpl. case_decide as Hyx; [by subst|].
  apply elem_of_cons in Hx as [->|Hx]; [done|].
  rewrite (IH Hx) at 1. apply Permutation_swap.
Qed.



(** X2. [disconnect] takes out exactly one entry of a listed connection and
    nothing else: what is left is a sublist of the list, and putting the
    connection back in front gives a permutation of the list, so the length
    drops by one. *)
Theorem disconnect_removes_one_entry (ws : WebSocket) (s : list WebSocket) :
  (disconnect ws s).2 `sublist_of` s /\
  (ws ∈ s ->
   s ≡ₚ ws :: (disconnect ws s).2 /\
   length s = S (length (disconnect ws s).2)).
Proof.
  rewrite disconnect_state. split; [apply remove_first_sublist|].
  intros Hws. pose proof (remove_first_perm ws s Hws) as Hperm.
  split; [done|]. by rewrite Hperm at 1.
Qed.

Section Broadcasts.

Context {Message : Type} (send_json : WebSocket -> Message -> result unit).

Lemma prune_fold (disconnected : list WebSocket)
    (log : list (event Message)) (self : list WebSocket) :
  prune Message disconnected log self =
  {| returned := Ok (); events := log ++ (Pruned Message <$> disconnected);
     connections := remove_each disconnected self |}.
Proof.
  revert log self. induction disconnected as [|ws rest IH]; intros log self.
  - cbn [prune]. by rewrite fmap_nil, app_nil_r.
  - cbn [prune]. rewrite disconnect_eq, IH, fmap_cons, <- app_assoc. done.
Qed.



(** The message an event carries, when it carries one, is [message]. *)
Definition carries (message : Message) (ev : event Message) : Prop :=
  match ev with
  | Sent _ _ m | Failed _ _ m _ => m = message
  | Pruned _ _ => True
  end.



End Broadcasts.


Lemma run_NoDup {Message : Type} (ops : list (op Message))
    (s : list WebSocket) :
  NoDup s -> registers_absent ops s -> NoDup (run ops s).
Proof.
  revert s. induction ops as [|o ops IH]; intros s Hs Hops; [done|].
  destruct Hops as [Ho Hops]. simpl. apply IH; [|done]. by apply step_NoDup.
Qed.

(** X5. After any history of register, unregister and broadcast operations
    that starts from a duplicate-free list and registers only connections that
    are not listed, the [disconnect] that the endpoint calls when the client
    hangs up leaves a list without that connection; the other connections stay,
    in their order. *)
Theorem unregistered_connection_is_gone {Message : Type}
    (ops : list (op Message)) (s : list WebSocket) (ws : WebSocket) :
  NoDup s -> registers_absent ops s ->
  (ws ∉ run (ops ++ [Unregister ws]) s) /\
  run (ops ++ [Unregister ws]) s = filter (fun x => x <> ws) (run ops s).
Proof.
  intros Hs Hops. pose proof (run_NoDup ops s Hs Hops) as Hnd.
  assert (run (ops ++ [Unregister ws]) s
          = filter (fun x => x <> ws) (run ops s)) as ->.
  { unfold run. rewrite foldl_app. cbn [foldl step].
    rewrite disconnect_state. by apply remove_first_NoDup. }
  split; [|done]. rewrite list_elem_of_filter. tauto.
Qed.

Lemma unregistered_connection_is_gone_witness :
  NoDup [5] /\
  registers_absent
    [Register always_accepts 7; Broadcast send_fails_on_2 "prediction";
     Register always_accepts 2] [5] /\
  (7 ∉ run ([Register always_accepts 7;
              Broadcast send_fails_on_2 "prediction";
              Register always_accepts 2] ++ [Unregister 7]) [5]) /\
  run ([Register always_accepts 7; Broadcast send_fails_on_2 "prediction";
        Register always_accepts 2] ++ [Unregister 7]) [5]
  = filter (fun x => x <> 7)
      (run [Register always_accepts 7; Broadcast send_fails_on_2 "prediction";
            Register always_accepts 2] [5]).
Proof.
  assert (NoDup [5]) as Hs by (by apply (bool_decide_unpack _)).
  assert (registers_absent
    [Register always_accepts 7; Broadcast send_fails_on_2 "prediction";
     Register always_accepts 2] [5]) as Hops.
  { cbn. repeat split; left; by apply (bool_decide_unpack _). }
  split; [exact Hs|]. split; [exact Hops|].
  exact (unregistered_connection_is_gone _ [5] 7 Hs Hops).
Defined.

(** X6. The endpoint of a connection that was not listed, on a duplicate-free
    list, with other coroutines that register only unlisted connections: when
    the client hangs up the function returns and the connection is no longer
    listed; when [receive_text] raises anything else, the exception leaves the
    function and the list is what the other coroutines made of it, the
    connection not unregistered by the endpoint; a handshake that raises
    leaves the list as it was. *)
Theorem websocket_endpoint_lifecycle {Message : Type}
    (accept : WebSocket -> result unit) (ws : WebSocket)
    (inbound : list (result string)) (others : list (op Message))
    (manager : list WebSocket) :
  NoDup manager -> ws ∉ manager ->
  registers_absent others (manager ++ [ws]) ->
  (forall e, accept ws = Raise e ->
     websocket_endpoint accept ws inbound others manager
     = (Finished (Raise e), manager)) /\
  (accept ws = Ok () ->
   (receive_loop inbound = None ->
      websocket_endpoint accept ws inbound others manager
      = (Receiving, run others (manager ++ [ws]))) /\
   (receive_loop inbound = Some WebSocketDisconnect ->
      websocket_endpoint accept ws inbound others manager
      = (Finished (Ok ()),
         filter (fun x => x <> ws) (run others (manager ++ [ws]))) /\
      ws ∉ (websocket_endpoint accept ws inbound others manager).2) /\
   (forall e, receive_loop inbound = Some e -> e <> WebSocketDisconnect ->
      websocket_endpoint accept ws inbound others manager
      = (Finished (Raise e), run others (manager ++ [ws])))).
Proof.
  intros Hnd Hws Hothers. unfold websocket_endpoint, connect. split.
  { intros e He. by rewrite He. }
  intros Hacc. rewrite Hacc. cbn [snd].
  assert (NoDup (manager ++ [ws])) as Hnd1.
  { apply NoDup_app. split; [done|]. split; [|apply NoDup_singleton].
    intros x Hx ->%list_elem_of_singleton. done. }
  pose proof (run_NoDup others _ Hnd1 Hothers) as Hnd2.
  split; [by intros ->|]. split.
  - intros ->. rewrite disconnect_eq, (remove_first_NoDup _ _ Hnd2).
    split; [done|]. cbn [snd]. rewrite list_elem_of_filter. tauto.
  - intros e -> He. by destruct e.
Qed.

Lemma websocket_endpoint_lifecycle_witness :
  NoDup [5] /\ (7 ∉ [5]) /\
  registers_absent [Broadcast send_fails_on_2 "prediction"] ([5] ++ [7]) /\
  (forall e, always_accepts 7 = Raise e ->
     websocket_endpoint always_accepts 7 [Ok "ping"; Raise WebSocketDisconnect]
       [Broadcast send_fails_on_2 "prediction"] [5]
     = (Finished (Raise e), [5])) /\
  (always_accepts 7 = Ok () ->
   (receive_loop [Ok "ping"; Raise WebSocketDisconnect] = None ->
      websocket_endpoint always_accepts 7 [Ok "ping"; Raise WebSocketDisconnect]
        [Broadcast send_fails_on_2 "prediction"] [5]
      = (Receiving,
         run [Broadcast send_fails_on_2 "prediction"] ([5] ++ [7]))) /\
   (receive_loop [Ok "ping"; Raise WebSocketDisconnect]
      = Some WebSocketDisconnect ->
      websocket_endpoint always_accepts 7 [Ok "ping"; Raise WebSocketDisconnect]
        [Broadcast send_fails_on_2 "prediction"] [5]
      = (Finished (Ok ()),
         filter (fun x => x <> 7)
           (run [Broadcast send_fails_on_2 "prediction"] ([5] ++ [7]))) /\
      7 ∉ (websocket_endpoint always_accepts 7
             [Ok "ping"; Raise WebSocketDisconnect]
             [Broadcast send_fails_on_2 "prediction"] [5]).2) /\
   (forall e, receive_loop [Ok "ping"; Raise WebSocketDisconnect] = Some e ->
      e <> WebSocketDisconnect ->
      websocket_endpoint always_accepts 7 [Ok "ping"; Raise WebSocketDisconnect]
        [Broadcast send_fails_on_2 "prediction"] [5]
      = (Finished (Raise e),
         run [Broadcast send_fails_on_2 "prediction"] ([5] ++ [7])))).
Proof.
  assert (NoDup [5]) as Hnd by (by apply (bool_decide_unpack _)).
  assert (7 ∉ [5]) as Hws by (by apply (bool_decide_unpack _)).
  assert (registers_absent [Broadcast send_fails_on_2 "prediction"]
            ([5] ++ [7])) as Hothers by (cbn; done).
  split; [exact Hnd|]. split; [exact Hws|]. split; [exact Hothers|].
  exact (websocket_endpoint_lifecycle always_accepts 7
           [Ok "ping"; Raise WebSocketDisconnect]
           [Broadcast send_fails_on_2 "prediction"] [5] Hnd Hws Hothers).
Defined.

(** The endpoint above, run: the client sends a text and hangs up. *)
Example websocket_endpoint_run :
  websocket_endpoint always_accepts 7 [Ok "ping"; Raise WebSocketDisconnect]
    [Broadcast send_fails_on_2 "prediction"] [5]
  = (Finished (Ok ()), [5]).
Proof. reflexivity. Qed.

End ManagerLaws.

(** ** The broadcast among the other coroutines

    [broadcast_json] iterates [self.active_connections] itself, not a copy,
    and suspends at every [await ws.send_json(message)]. While it is
    suspended the endpoints of the other clients run, and they change the
    list: [connect] appends, [disconnect] removes. *)

Module LiveBroadcast.

Import ConnectionManager.

(** What another coroutine does to the list during one await: the endpoint of
    a new client appends its connection once the handshake is accepted (line
    40), the endpoint of a client that hung up removes its own (line 76). *)
Inductive change : Type :=
  | Joins (ws : WebSocket)
  | Leaves (ws : WebSocket).

Definition apply_change (self : t) (c : change) : t :=
  match c with
  | Joins ws => self ++ [ws]
  | Leaves ws => (disconnect ws self).2
  end.

Definition meanwhile (changes : list change) (self : t) : t :=
  foldl apply_change self changes.

(** The connections a log shows pruned, in order. *)
Definition pruned {Message : Type} (log : list (event Message))
  : list WebSocket :=
  omap (fun ev => match ev with Pruned _ ws => Some ws | _ => None end) log.

Section Live.

Context {Message : Type}.

(** [await ws.send_json(message)] in round [i] of the loop: how the send ends
    may depend on when it is made. *)
Variable send_json : nat -> WebSocket -> Message -> result unit.

(** The rounds of the first loop from round [i] on, once nobody else touches
    the list any more: the connections still to come are visited in turn. *)
Fixpoint send_rest (message : Message) (i : nat) (conns : list WebSocket)
    (log : list (event Message)) (disconnected : list WebSocket)
  : list (event Message) * result (list WebSocket) :=
  match conns with
  | [] => (log, Ok disconnected)
  | ws :: rest =>
      match send_json i ws message with
      | Ok _ =>
          send_rest message (S i) rest (log ++ [Sent Message ws message])
                    disconnected
      | Raise e =>
          if is_Exception e then
            send_rest message (S i) rest (log ++ [Failed Message ws message e])
                      (disconnected ++ [ws])
          else (log ++ [Failed Message ws message e], Raise e)
      end
  end.

(** The first loop on the live list. The iterator of a Python list holds the
    list and an index: round [i] ends the loop when [i] is not below the
    length the list has at that moment, and otherwise takes the entry at [i]
    of the list as it is at that moment. [awaits] lists, await by await, what
    the other coroutines do to the list while the send of that round is
    suspended; after the last of them nobody else touches the list. The
    result is the log, the list [disconnected] or the exception the handler
    does not catch, and the list as the loop leaves it. *)
Fixpoint send_live (awaits : list (list change)) (message : Message) (i : nat)
    (self : t) (log : list (event Message)) (disconnected : list WebSocket)
  : list (event Message) * result (list WebSocket) * t :=
  match awaits with
  | [] => (send_rest message i (drop i self) log disconnected, self)
  | changes :: awaits' =>
      match self !! i with
      | None => (log, Ok disconnected, self)
      | Some ws =>
          let self' := meanwhile changes self in
          match send_json i ws message with
          | Ok _ =>
              send_live awaits' message (S i) self'
                        (log ++ [Sent Message ws message]) disconnected
          | Raise e =>
              if is_Exception e then
                send_live awaits' message (S i) self'
                          (log ++ [Failed Message ws message e])
                          (disconnected ++ [ws])
              else (log ++ [Failed Message ws message e], Raise e, self')
          end
      end
  end.

(** [broadcast_json] among the other coroutines. The clean-up loop does not
    await, so it runs in one piece. *)
Definition broadcast_json_live (awaits : list (list change))
    (message : Message) (self : t) : outcome Message unit :=
  match send_live awaits message 0 self [] [] with
  | (log, Ok disconnected, self') => prune Message disconnected log self'
  | (log, Raise e, self') =>
      {| returned := Raise e; events := log; connections := self' |}
  end.

(** The event of the send of round [i]. *)
Definition send_event_at (message : Message) (i : nat) (ws : WebSocket)
  : event Message :=
  match send_json i ws message with
  | Ok _ => Sent Message ws message
  | Raise e => Failed Message ws message e
  end.

(** The events of the sends to [conns] in the rounds from [i] on, and the
    connections among them whose send raises. *)
Fixpoint sends_from (message : Message) (i : nat) (conns : list WebSocket)
  : list (event Message) :=
  match conns with
  | [] => []
  | ws :: rest => send_event_at message i ws :: sends_from message (S i) rest
  end.

Fixpoint failures_from (message : Message) (i : nat) (conns : list WebSocket)
  : list WebSocket :=
  match conns with
  | [] => []
  | ws :: rest =>
      match send_json i ws message with
      | Ok _ => failures_from message (S i) rest
      | Raise _ => ws :: failures_from message (S i) rest
      end
  end.

(** *** An undisturbed broadcast *)

Lemma send_rest_spec (message : Message) (i : nat) (conns : list WebSocket)
    (log : list (event Message)) (disconnected : list WebSocket) :
  (forall j ws e, conns !! j = Some ws ->
     send_json (i + j) ws message = Raise e -> is_Exception e = true) ->
  send_rest message i conns log disconnected =
  (log ++ sends_from message i conns,
   Ok (disconnected ++ failures_from message i conns)).
Proof.
  revert i log disconnected.
  induction conns as [|ws rest IH]; intros i log disconnected Hexc.
  - cbn [send_rest sends_from failures_from]. by rewrite !app_nil_r.
  - assert (forall j ws' e, rest !! j = Some ws' ->
              send_json (S i + j) ws' message = Raise e ->
              is_Exception e = true) as Hrest.
    { intros j ws' e Hj. replace (S i + j) with (i + S j) by lia.
      by apply Hexc. }
    cbn [send_rest sends_from failures_from]. unfold send_event_at.
    destruct (send_json i ws message) as [[]|e] eqn:Hsend.
    + rewrite IH by done. by rewrite <- app_assoc.
    + rewrite (Hexc 0 ws e) by (done || by rewrite Nat.add_0_r).
      rewrite IH by done. by rewrite <- !app_assoc.
Qed.

Lemma send_live_undisturbed (awaits : list (list change)) (message : Message)
    (i : nat) (self : t) (log : list (event Message))
    (disconnected : list WebSocket) :
  Forall (fun changes => changes = []) awaits ->
  send_live awaits message i self log disconnected =
  (send_rest message i (drop i self) log disconnected, self).
Proof.
  intros Hquiet. revert i log disconnected.
  induction Hquiet as [|changes awaits -> _ IH]; intros i log disconnected;
    [done|].
  cbn [send_live meanwhile foldl].
  destruct (self !! i) as [ws|] eqn:Hi.
  - rewrite (drop_S self ws i) by done. cbn [send_rest].
    destruct (send_json i ws message) as [[]|e]; [apply IH|].
    destruct (is_Exception e); [apply IH|done].
  - by rewrite drop_ge by (by apply lookup_ge_None_1).
Qed.

Lemma attempts_sends_from (message : Message) (i : nat)
    (conns : list WebSocket) :
  attempts Message (sends_from message i conns) = conns.
Proof.
  revert i. induction conns as [|ws rest IH]; intros i; [done|].
  cbn [sends_from]. rewrite attempts_cons, IH. unfold send_event_at.
  by destruct (send_json i ws message).
Qed.

Lemma length_sends_from (message : Message) (i : nat)
    (conns : list WebSocket) :
  length (sends_from message i conns) = length conns.
Proof.
  revert i. induction conns as [|ws rest IH]; intros i; [done|].
  cbn [sends_from length]. by rewrite IH.
Qed.

Lemma sends_from_lookup (message : Message) (i : nat) (conns : list WebSocket)
    (j : nat) (ws : WebSocket) :
  conns !! j = Some ws ->
  sends_from message i conns !! j = Some (send_event_at message (i + j) ws).
Proof.
  revert i j. induction conns as [|ws' rest IH]; intros i [|j] Hj; try done.
  - injection Hj as ->. cbn [sends_from]. by rewrite Nat.add_0_r.
  - cbn [sends_from]. simpl in Hj. rewrite lookup_cons. rewrite (IH (S i) j Hj).
    by replace (S i + j) with (i + S j) by lia.
Qed.

Lemma pruned_sends_from (message : Message) (i : nat)
    (conns : list WebSocket) :
  pruned (sends_from message i conns) = [].
Proof.
  revert i. induction conns as [|ws rest IH]; intros i; [done|].
  cbn [sends_from]. unfold pruned in *. cbn [omap list_omap].
  unfold send_event_at at 1. by destruct (send_json i ws message).
Qed.

Lemma pruned_Pruned (l : list WebSocket) :
  pruned (Pruned Message <$> l) = l.
Proof.
  induction l as [|ws l IH]; [done|]. unfold pruned in *. simpl. by f_equal.
Qed.

Lemma failures_from_sublist (message : Message) (i : nat)
    (conns : list WebSocket) :
  failures_from message i conns `sublist_of` conns.
Proof.
  revert i. induction conns as [|ws rest IH]; intros i; [done|].
  cbn [failures_from]. destruct (send_json i ws message).
  - by apply sublist_cons.
  - by apply sublist_skip.
Qed.

Lemma failures_from_lookup (message : Message) (i : nat)
    (conns : list WebSocket) (j : nat) (ws : WebSocket) :
  NoDup conns -> conns !! j = Some ws ->
  ws ∉ failures_from message i conns <-> send_json (i + j) ws message = Ok ().
Proof.
  intros Hnd. revert i j.
  induction Hnd as [|ws' rest Hws' Hnd IH]; intros i [|j] Hj; try done.
  - injection Hj as ->. rewrite Nat.add_0_r. cbn [failures_from].
    destruct (send_json i ws message) as [[]|e].
    + split; [done|]. intros _ Hin. apply Hws'.
      eapply elem_of_sublist; [exact Hin|apply failures_from_sublist].
    + split; [|done]. intros Hin. exfalso. apply Hin, elem_of_cons. by left.
  - simpl in Hj. replace (i + S j) with (S i + j) by lia.
    rewrite <- (IH (S i) j Hj). cbn [failures_from].
    assert (ws <> ws') as Hne.
    { intros ->. apply Hws'. by eapply list_elem_of_lookup_2. }
    destruct (send_json i ws' message); [done|].
    rewrite not_elem_of_cons. tauto.
Qed.

Lemma delivered_sends_from (message : Message) (i : nat)
    (conns : list WebSocket) :
  NoDup conns ->
  delivered Message (sends_from message i conns) =
  filter (fun ws => ws ∉ failures_from message i conns) conns.
Proof.
  intros Hnd. revert i. induction Hnd as [|ws rest Hws Hnd IH]; intros i;
    [done|].
  assert (forall k, ws ∉ failures_from message k rest) as Hout.
  { intros k Hin. apply Hws.
    eapply elem_of_sublist; [exact Hin|apply failures_from_sublist]. }
  cbn [sends_from failures_from]. rewrite delivered_cons, filter_cons.
  unfold send_event_at. destruct (send_json i ws message) as [[]|e].
  - rewrite decide_True by apply Hout. by rewrite IH.
  - rewrite decide_False by (intros Hin; apply Hin, elem_of_cons; by left).
    rewrite IH. apply filter_iff_in. intros x Hx.
    rewrite not_elem_of_cons. split; [|tauto].
    intros Hx'. split; [|done]. by intros ->.
Qed.

Lemma length_delivered_failures (message : Message) (i : nat)
    (conns : list WebSocket) :
  length (delivered Message (sends_from message i conns))
  + length (failures_from message i conns) = length conns.
Proof.
  revert i. induction conns as [|ws rest IH]; intros i; [done|].
  cbn [sends_from failures_from]. rewrite delivered_cons.
  unfold send_event_at. specialize (IH (S i)).
  destruct (send_json i ws message); simpl; lia.
Qed.

Lemma undisturbed_broadcast_closed_form (awaits : list (list change))
    (message : Message) (self : t) :
  Forall (fun changes => changes = []) awaits -> NoDup self ->
  (forall i ws e, self !! i = Some ws -> send_json i ws message = Raise e ->
                  is_Exception e = true) ->
  broadcast_json_live awaits message self =
  {| returned := Ok ();
     events := sends_from message 0 self
               ++ (Pruned Message <$> failures_from message 0 self);
     connections :=
       filter (fun ws => ws ∉ failures_from message 0 self) self |}.
Proof.
  intros Hquiet Hnd Hexc. unfold broadcast_json_live.
  rewrite send_live_undisturbed by done. rewrite drop_0.
  rewrite send_rest_spec by done. cbn [app].
  by rewrite (prune_spec (fun _ _ => Ok ())) by done.
Qed.

(** X3. A broadcast during which no other coroutine changes the list, on a
    duplicate-free list and with failing sends that raise exceptions
    [except Exception] catches, whatever the round in which a send is made:
    the call returns; its first events are the sends to the connections of
    the list, one each, in the order of the list, and every event after them
    is the pruning of a connection; a connection is in the list afterwards
    exactly when its send returned, the connections that stay keep their
    order and are the ones delivered to; and those that stay and those that
    were pruned are as many as the list had. *)
Theorem broadcast_json_live_undisturbed (awaits : list (list change))
    (message : Message) (self : t) :
  Forall (fun changes => changes = []) awaits -> NoDup self ->
  (forall i ws e, self !! i = Some ws -> send_json i ws message = Raise e ->
                  is_Exception e = true) ->
  let out := broadcast_json_live awaits message self in
  returned out = Ok () /\
  attempts Message (events out) = self /\
  (forall i ws, self !! i = Some ws ->
     events out !! i = Some (send_event_at message i ws)) /\
  (forall j ev, events out !! (length self + j) = Some ev ->
     exists ws, ev = Pruned Message ws /\ ws ∈ self /\ ws ∉ connections out) /\
  (forall i ws, self !! i = Some ws ->
     ws ∈ connections out <-> send_json i ws message = Ok ()) /\
  connections out `sublist_of` self /\
  delivered Message (events out) = connections out /\
  length (connections out) + length (pruned (events out)) = length self.
Proof.
  intros Hquiet Hnd Hexc out. unfold out.
  rewrite undisturbed_broadcast_closed_form by done.
  cbn [returned events connections].
  split; [done|]. split; [|split; [|split; [|split; [|split; [|split]]]]].
  - unfold attempts. rewrite omap_app.
    fold (attempts Message (sends_from message 0 self)).
    fold (attempts Message (Pruned Message <$> failures_from message 0 self)).
    by rewrite attempts_sends_from, attempts_Pruned, app_nil_r.
  - intros i ws Hi.
    rewrite lookup_app_l
      by (rewrite length_sends_from; by eapply lookup_lt_Some).
    by rewrite (sends_from_lookup message 0 self i ws Hi).
  - intros j ev.
    rewrite lookup_app_r by (rewrite length_sends_from; lia).
    rewrite length_sends_from, list_lookup_fmap.
    replace (length self + j - length self) with j by lia.
    destruct (failures_from message 0 self !! j) as [ws|] eqn:Hj; [|done].
    intros [= <-]. exists ws. split; [done|].
    apply list_elem_of_lookup_2 in Hj. split.
    + eapply elem_of_sublist; [exact Hj|apply failures_from_sublist].
    + rewrite list_elem_of_filter. tauto.
  - intros i ws Hi. rewrite list_elem_of_filter.
    rewrite (failures_from_lookup message 0 self i ws Hnd Hi).
    split; [tauto|]. intros Hok. split; [done|].
    by eapply list_elem_of_lookup_2.
  - apply sublist_filter.
  - unfold delivered. rewrite omap_app.
    fold (delivered Message (sends_from message 0 self)).
    fold (delivered Message (Pruned Message <$> failures_from message 0 self)).
    by rewrite delivered_Pruned, app_nil_r, delivered_sends_from.
  - unfold pruned. rewrite omap_app.
    fold (pruned (sends_from message 0 self)).
    fold (pruned (Pruned Message <$> failures_from message 0 self)).
    rewrite pruned_sends_from, pruned_Pruned. cbn [app].
    rewrite <- (delivered_sends_from message 0 self Hnd).
    apply length_delivered_failures.
Qed.

(** *** A broadcast that is disturbed *)

(** Whatever the others do, failing sends that [except Exception] catches do
    not end the broadcast. *)
Lemma send_rest_caught (P : event Message -> Prop) (message : Message)
    (i : nat) (conns : list WebSocket) (log : list (event Message))
    (disconnected : list WebSocket) :
  (forall i ws e, send_json i ws message = Raise e -> is_Exception e = true) ->
  (forall i ws, P (send_event_at message i ws)) -> Forall P log ->
  exists log' disconnected',
    send_rest message i conns log disconnected = (log', Ok disconnected') /\
    Forall P log'.
Proof.
  intros Hexc HP. revert i log disconnected.
  induction conns as [|ws rest IH]; intros i log disconnected Hlog.
  - by eexists _, _.
  - cbn [send_rest]. pose proof (HP i ws) as Hev. unfold send_event_at in Hev.
    destruct (send_json i ws message) as [[]|e] eqn:Hsend.
    + apply IH, Forall_app. split; [done|]. by constructor.
    + rewrite (Hexc i ws e Hsend). apply IH, Forall_app.
      split; [done|]. by constructor.
Qed.

Lemma send_live_caught (P : event Message -> Prop)
    (awaits : list (list change)) (message : Message) (i : nat) (self : t)
    (log : list (event Message)) (disconnected : list WebSocket) :
  (forall i ws e, send_json i ws message = Raise e -> is_Exception e = true) ->
  (forall i ws, P (send_event_at message i ws)) -> Forall P log ->
  exists log' disconnected' self',
    send_live awaits message i self log disconnected
    = (log', Ok disconnected', self') /\
    Forall P log'.
Proof.
  intros Hexc HP. revert i self log disconnected.
  induction awaits as [|changes awaits IH]; intros i self log disconnected Hlog.
  - cbn [send_live].
    destruct (send_rest_caught P message i (drop i self) log disconnected)
      as (log' & disconnected' & -> & Hlog'); [done..|].
    by eexists _, _, _.
  - cbn [send_live]. destruct (self !! i) as [ws|]; [|by eexists _, _, _].
    pose proof (HP i ws) as Hev. unfold send_event_at in Hev.
    destruct (send_json i ws message) as [[]|e] eqn:Hsend.
    + apply IH, Forall_app. split; [done|]. by constructor.
    + rewrite (Hexc i ws e Hsend). apply IH, Forall_app.
      split; [done|]. by constructor.
Qed.

Lemma broadcast_json_live_caught (P : event Message -> Prop)
    (awaits : list (list change)) (message : Message) (self : t) :
  (forall i ws e, send_json i ws message = Raise e -> is_Exception e = true) ->
  (forall i ws, P (send_event_at message i ws)) ->
  (forall ws, P (Pruned Message ws)) ->
  returned (broadcast_json_live awaits message self) = Ok () /\
  Forall P (events (broadcast_json_live awaits message self)).
Proof.
  intros Hexc HP Hpruned. unfold broadcast_json_live.
  destruct (send_live_caught P awaits message 0 self [] [])
    as (log & disconnected & self' & -> & Hlog); [done..|].
  rewrite ManagerLaws.prune_fold. cbn [returned events]. split; [done|].
  apply Forall_app. split; [done|]. apply Forall_fmap, Forall_forall.
  intros ws _. apply Hpruned.
Qed.

End Live.

(** When nobody else touches the list and the end of a send does not depend on
    its round, the broadcast is the walk over the list as it was at the
    call. *)
Lemma send_rest_send_all {Message : Type}
    (send_json : WebSocket -> Message -> result unit) (message : Message)
    (i : nat) (conns : list WebSocket) (log : list (event Message))
    (disconnected : list WebSocket) :
  send_rest (fun _ => send_json) message i conns log disconnected =
  send_all Message send_json message conns log disconnected.
Proof.
  revert i log disconnected.
  induction conns as [|ws rest IH]; intros i log disconnected; [done|].
  cbn [send_rest send_all].
  destruct (send_json ws message) as [[]|e]; [apply IH|].
  destruct (is_Exception e); [apply IH|done].
Qed.

Lemma broadcast_json_live_alone {Message : Type}
    (send_json : WebSocket -> Message -> result unit) (message : Message)
    (self : t) :
  broadcast_json_live (fun _ => send_json) [] message self =
  broadcast_json Message send_json message self.
Proof.
  unfold broadcast_json_live, broadcast_json. cbn [send_live].
  rewrite drop_0, send_rest_send_all.
  by destruct (send_all _ _ _ _ _ _) as [log [disconnected|e]].
Qed.

(** *** A client hangs up during a broadcast *)

(** A transport on which every send returns. *)
Definition every_send_returns (i : nat) (ws : WebSocket) (message : string)
  : result unit := Ok ().

(** A transport on which the sends to connection [1] fail. *)
Definition send_fails_on_1 (i : nat) (ws : WebSocket) (message : string)
  : result unit :=
  if decide (ws = 1) then Raise RuntimeError else Ok ().

(** C2 at a broadcast during which a client hangs up. The connections 1, 2
    and 3 are listed. While the send to connection 1 is awaited its client
    hangs up, and the endpoint of that client unregisters it (line 76): the
    list is now 2, 3, and the loop, which goes on at index 1, finds
    connection 3 there. The call returns; connection 2 was in the list at the
    call and is in the list afterwards, and no delivery to it was attempted.
    It is so whether the send to connection 1 returned or failed. *)
Theorem broadcast_json_skips_a_live_connection :
  let self := [1; 2; 3] in
  let awaits := [[Leaves 1]] in
  let out := broadcast_json_live every_send_returns awaits "prediction" self in
  let out' := broadcast_json_live send_fails_on_1 awaits "prediction" self in
  out = {| returned := Ok ();
           events := [Sent string 1 "prediction"; Sent string 3 "prediction"];
           connections := [2; 3] |} /\
  out' = {| returned := Ok ();
            events := [Failed string 1 "prediction" RuntimeError;
                       Sent string 3 "prediction"; Pruned string 1];
            connections := [2; 3] |} /\
  (2 ∈ self) /\ (2 ∈ connections out) /\ (2 ∈ connections out') /\
  (2 ∉ attempts string (events out)) /\
  (2 ∉ attempts string (events out')).
Proof.
  assert (2 ∉ [1; 3]) as Hnot by (by apply (bool_decide_unpack _)).
  assert (2 ∈ [1; 2; 3]) as Hin by (by apply (bool_decide_unpack _)).
  assert (2 ∈ [2; 3]) as Hin' by (by apply (bool_decide_unpack _)).
  repeat split; done.
Qed.

(** The same three connections and the same transports with nobody hanging
    up. *)
Lemma broadcast_json_live_undisturbed_witness :
  Forall (fun changes : list change => changes = []) [[]; []; []] /\
  NoDup [1; 2; 3] /\
  (forall i ws e, [1; 2; 3] !! i = Some ws ->
     send_fails_on_1 i ws "prediction" = Raise e -> is_Exception e = true) /\
  let out :=
    broadcast_json_live send_fails_on_1 [[]; []; []] "prediction" [1; 2; 3] in
  returned out = Ok () /\
  attempts string (events out) = [1; 2; 3] /\
  (forall i ws, [1; 2; 3] !! i = Some ws ->
     events out !! i = Some (send_event_at send_fails_on_1 "prediction" i ws)) /\
  (forall j ev, events out !! (length [1; 2; 3] + j) = Some ev ->
     exists ws, ev = Pruned string ws /\ ws ∈ [1; 2; 3] /\
                ws ∉ connections out) /\
  (forall i ws, [1; 2; 3] !! i = Some ws ->
     ws ∈ connections out <-> send_fails_on_1 i ws "prediction" = Ok ()) /\
  connections out `sublist_of` [1; 2; 3] /\
  delivered string (events out) = connections out /\
  length (connections out) + length (pruned (events out)) = length [1; 2; 3].
Proof.
  assert (Forall (fun changes : list change => changes = []) [[]; []; []])
    as Hquiet by (by repeat constructor).
  assert (NoDup [1; 2; 3]) as Hnd by (by apply (bool_decide_unpack _)).
  assert (forall i ws e, [1; 2; 3] !! i = Some ws ->
            send_fails_on_1 i ws "prediction" = Raise e ->
            is_Exception e = true) as Hexc.
  { intros i ws e _. unfold send_fails_on_1. case_decide; [|done].
    by intros [= <-]. }
  split; [exact Hquiet|]. split; [exact Hnd|]. split; [exact Hexc|].
  exact (broadcast_json_live_undisturbed send_fails_on_1 [[]; []; []]
           "prediction" [1; 2; 3] Hquiet Hnd Hexc).
Defined.

End LiveBroadcast.

(** ** More on the feature extraction: exceptions and degenerate bands *)

Module FeatureLaws.

Import Features.

Lemma mapM_first_error {A B} (f : A -> result B) (l1 l2 : list A) (x : A)
    (e : exn) :
  Forall (fun y => exists z, f y = Ok z) l1 -> f x = Raise e ->
  mapM f (l1 ++ x :: l2) = Raise e.
Proof.
  intros Hl1 Hx. rewrite mapM_app.
  destruct (mapM_total f l1 Hl1) as [k1 Hk1].
  by rewrite Hk1, mapM_cons, Hx.
Qed.

Lemma is_nan_Prim2SF (x : float) : is_nan x = true -> Prim2SF x = S754_nan.
Proof.
  unfold is_nan. rewrite FloatAxioms.eqb_spec. intros H%negb_true_iff.
  unfold SFeqb, SFcompare in H.
  destruct (Prim2SF x) as [[]|[]| |[] m e]; try done.
  - rewrite Z.compare_refl in H.
    change (Pos.compare_cont Eq m m) with (Pos.compare m m) in H.
    by rewrite Pos.compare_refl in H.
  - rewrite Z.compare_refl in H.
    change (Pos.compare_cont Eq m m) with (Pos.compare m m) in H.
    by rewrite Pos.compare_refl in H.
Qed.

(** With a NaN in the lower bound no comparison holds. *)
Lemma in_band_nan (freq band_width x : float) :
  is_nan band_width = true -> in_band freq band_width x = false.
Proof.
  intros Hnan%is_nan_Prim2SF. unfold in_band.
  rewrite FloatAxioms.leb_spec, FloatAxioms.sub_spec, Hnan.
  unfold SF64sub, SFsub. by destruct (Prim2SF freq).
Qed.

Lemma fmap_const_replicate {A B} (c : B) (l : list A) :
  (fun _ => c) <$> l = replicate (length l) c.
Proof. induction l as [|x l IH]; [done|]. simpl. by rewrite <- IH. Qed.

Lemma mjoin_replicate {A} (n m : nat) (x : A) :
  mjoin (replicate n (replicate m x)) = replicate (n * m) x.
Proof.
  induction n as [|n IH]; [done|].
  change (mjoin (replicate (S n) (replicate m x)))
    with (replicate m x ++ mjoin (replicate n (replicate m x))).
  rewrite IH. change (S n * m) with (m + n * m). by rewrite replicate_add.
Qed.

Section Laws.

Context (welch : list float -> Z -> nat -> result (list float * list float))
        (np_mean : list float -> float).

Lemma band_mean_nan (f psd : list float) (freq band_width : float) :
  is_nan band_width = true ->
  band_mean np_mean f psd freq band_width = 0%float.
Proof.
  intros Hnan. unfold band_mean.
  assert (bins_in_band freq band_width f psd = []) as ->; [|done].
  revert psd. induction f as [|x f IH]; intros [|p psd]; simpl; try done.
  by rewrite in_band_nan.
Qed.

(** X7. A band width that is NaN is no error: on a valid batch every feature
    of every trial is [0.0], because no frequency bin compares inside the
    band. *)
Theorem nan_band_width_gives_zero_features (X : ndarray3) (fs : Z)
    (target_freqs : list float) (harmonic_multipliers : list Z)
    (band_width : float) :
  wf X -> estimator_ok welch X fs ->
  Forall representable harmonic_multipliers ->
  is_nan band_width = true ->
  extract_ssvep_features welch np_mean X fs target_freqs harmonic_multipliers
    band_width =
  Ok (replicate (n_trials X)
        (replicate (n_channels X
                    * (length target_freqs * length harmonic_multipliers))
                   0%float)).
Proof.
  intros Hwf Hest Hhm Hnan. rewrite extract_rows.
  rewrite (mapM_pure _ (fun _ =>
    replicate (n_channels X
               * (length target_freqs * length harmonic_multipliers))
              0%float)).
  { by rewrite fmap_const_replicate, length_seq. }
  apply Forall_forall. intros t Ht%elem_of_seq. unfold trial_feats.
  rewrite (mapM_pure _ (fun _ =>
    replicate (length target_freqs * length harmonic_multipliers) 0%float)).
  { rewrite fmap_const_replicate, length_seq. cbn [fmap result_fmap].
    by rewrite mjoin_replicate. }
  apply Forall_forall. intros ch Hch%elem_of_seq.
  destruct (wf_getitem3 X t ch) as (sig & Hsig & _); [done|lia|lia|].
  destruct (Hest _ _ _ Hsig) as (f & psd & Hw & Hlen).
  rewrite (channel_feats_spec welch np_mean X fs target_freqs
             harmonic_multipliers band_width t ch sig f psd) by done.
  f_equal. unfold channel_values. rewrite <- mjoin_replicate. f_equal.
  rewrite <- fmap_const_replicate. apply list_fmap_ext. intros _ base_f _.
  rewrite <- fmap_const_replicate. apply list_fmap_ext. intros _ h _.
  by apply band_mean_nan.
Qed.

(** X8. A harmonic multiplier too large for a float is an [OverflowError] of
    the whole extraction, as soon as there is a trial, a channel and a target
    frequency to multiply it with and the multipliers before it convert. *)
Theorem unrepresentable_multiplier_raises (X : ndarray3) (fs : Z)
    (base_f : float) (target_freqs : list float) (pre post : list Z) (h : Z)
    (band_width : float) :
  wf X -> estimator_ok welch X fs ->
  0 < n_trials X -> 0 < n_channels X ->
  Forall representable pre -> ~ representable h ->
  extract_ssvep_features welch np_mean X fs (base_f :: target_freqs)
    (pre ++ h :: post) band_width = Raise OverflowError.
Proof.
  intros Hwf Hest Ht Hc Hpre Hh. rewrite extract_rows.
  destruct (n_trials X) as [|n] eqn:Hn; [lia|]. cbn [seq].
  rewrite mapM_cons.
  assert (trial_feats welch np_mean X fs (base_f :: target_freqs)
            (pre ++ h :: post) band_width 0 = Raise OverflowError) as ->;
    [|done].
  unfold trial_feats. destruct (n_channels X) as [|c] eqn:Hc'; [lia|].
  cbn [seq]. rewrite mapM_cons.
  assert (channel_feats welch np_mean X fs (base_f :: target_freqs)
            (pre ++ h :: post) band_width 0 0 = Raise OverflowError) as ->;
    [|done].
  destruct (wf_getitem3 X 0 0) as (sig & Hsig & _); [done|lia|lia|].
  destruct (Hest _ _ _ Hsig) as (f & psd & Hw & Hlen).
  unfold channel_feats. rewrite Hsig. cbn [mbind result_bind]. rewrite Hw.
  cbn [mbind result_bind]. rewrite mapM_cons.
  rewrite (mapM_first_error _ pre post h OverflowError); [done| |].
  - eapply Forall_impl; [exact Hpre|]. intros h' Hh'. eexists.
    by apply feature_spec.
  - unfold feature, float_mul_int, float_of_int.
    unfold representable in Hh. by destruct (is_infinity (Z2float h)).
Qed.

End Laws.

Lemma nan_band_width_gives_zero_features_witness :
  wf X2 /\ estimator_ok axis_estimator X2 4 /\
  Forall representable [1; 2]%Z /\ is_nan nan = true /\
  extract_ssvep_features axis_estimator left_mean X2 4 [1; 5]%float [1; 2]%Z
    nan =
  Ok (replicate (n_trials X2)
        (replicate (n_channels X2 * (length [1; 5]%float * length [1; 2]%Z))
                   0%float)).
Proof.
  assert (wf X2) as Hwf by solve_wf.
  assert (estimator_ok axis_estimator X2 4) as Hest by solve_estimator_ok.
  assert (Forall representable [1; 2]%Z) as Hhm by solve_representable.
  repeat (split; [assumption|]). split; [reflexivity|].
  exact (nan_band_width_gives_zero_features axis_estimator left_mean X2 4
           [1; 5]%float [1; 2]%Z nan Hwf Hest Hhm eq_refl).
Defined.

Lemma unrepresentable_multiplier_raises_witness :
  wf X2 /\ estimator_ok axis_estimator X2 4 /\
  0 < n_trials X2 /\ 0 < n_channels X2 /\
  Forall representable [1]%Z /\ ~ representable (2 ^ 1024)%Z /\
  extract_ssvep_features axis_estimator left_mean X2 4 (1 :: [5])%float
    ([1] ++ 2 ^ 1024 :: [3])%Z 0.5%float = Raise OverflowError.
Proof.
  assert (wf X2) as Hwf by solve_wf.
  assert (estimator_ok axis_estimator X2 4) as Hest by solve_estimator_ok.
  assert (0 < n_trials X2) as Ht by (simpl; lia).
  assert (0 < n_channels X2) as Hc by (simpl; lia).
  assert (Forall representable [1]%Z) as Hpre by solve_representable.
  assert (~ representable (2 ^ 1024)%Z) as Hh
    by (unfold representable; vm_compute; discriminate).
  repeat (split; [assumption|]).
  exact (unrepresentable_multiplier_raises axis_estimator left_mean X2 4
           1%float [5]%float [1]%Z [3]%Z (2 ^ 1024)%Z 0.5%float
           Hwf Hest Ht Hc Hpre Hh).
Defined.

End FeatureLaws.

(** ** More on the prediction endpoint: what is sent, what is refused, and the
    features the models see *)

Module PredictLaws.

Import Features ConnectionManager LiveBroadcast Main.

(** [extract_ssvep_features(X_raw, fs=256)] of [train_and_save_models]: the
    features the models are fitted on. *)
Definition training_features
    (welch : list float -> Z -> nat -> result (list float * list float))
    (np_mean : list float -> float) (X_raw : ndarray3)
  : result (list (list float)) :=
  extract_ssvep_features welch np_mean X_raw 256
    [10; 12; 15; 20]%float [1; 2; 3]%Z 0.5%float.

(** Lines 103-114 of [predict]: the features computed from the data of a
    request. *)
Definition request_features
    (welch : list float -> Z -> nat -> result (list float * list float))
    (np_mean : list float -> float) (data : list (list float))
  : result (list (list float)) :=
  arr ← np_array data;
  if decide (ndim arr <> 2) then
    Raise (HTTPException 400 "data must be a 2D array: channels x samples")
  else
    X ← newaxis arr;
    extract_ssvep_features welch np_mean X 256
      [10; 12; 15; 20]%float [1; 2; 3]%Z 0.5%float.

(** A transport on which every send to connection [2] fails, in whatever
    round it is made. *)
Definition prediction_fails_on_2 (i : nat) (ws : WebSocket)
    (message : Message) : result unit :=
  if decide (ws = 2) then Raise RuntimeError else Ok ().

(** A printer that gives every class the same string. *)
Definition same_string (cls : nat) : string := "class".

(** The request of [trial_1x4] to the model ["lda"]. *)
Definition request_1x4 : PredictRequest :=
  {| data := trial_1x4; model_name := "lda" |}.

Section Laws.

Context (Label : Type) (str : Label -> string)
        (models : gmap string (Model Label))
        (welch : list float -> Z -> nat -> result (list float * list float))
        (np_mean : list float -> float).

Lemma predict_response_request_features (req : PredictRequest) :
  predict_response Label str models welch np_mean req =
  (X_feat ← request_features welch np_mean (data req);
   match models !! model_name req with
   | None => Raise (HTTPException 400 "Unknown model_name")
   | Some model =>
       all_probs ← predict_proba model X_feat;
       probs ← getitem all_probs 0;
       pred_idx ← np_argmax probs;
       cls ← getitem (classes_ model) pred_idx;
       Ok {| response_model_name := model_name req;
             predicted_label := str cls;
             class_probabilities :=
               class_probs_dict Label str (classes_ model) probs |}
   end).
Proof.
  unfold predict_response, request_features.
  destruct (np_array (data req)) as [arr|e]; [|done]. cbn [mbind result_bind].
  case_decide; [done|].
  destruct (newaxis arr) as [X|e]; [|done]. cbn [mbind result_bind].
  by destruct (extract_ssvep_features _ _ _ _ _ _ _).
Qed.

(** *** What a prediction sends *)

(** [predict] among the other coroutines: the broadcast of line 135 runs on
    the live list. *)
Definition predict_live
    (send_json : nat -> WebSocket -> Message -> result unit)
    (awaits : list (list change)) (req : PredictRequest)
    (manager : list WebSocket) : outcome Message Response :=
  match predict_response Label str models welch np_mean req with
  | Raise e => {| returned := Raise e; events := []; connections := manager |}
  | Ok response =>
      let o := broadcast_json_live send_json awaits
                 {| type_ := "prediction"; payload := response |} manager in
      {| returned := (_ ← returned o; Ok response);
         events := events o;
         connections := connections o |}
  end.

(** X10. When the response is computed and every failing send raises an
    exception that [except Exception] catches, [predict] returns that
    response whatever the other coroutines do to the connection list during
    the broadcast: no subscriber makes the request fail, and every send
    carries the message [{"type": "prediction", **response}]. When moreover no
    other coroutine changes the list during the broadcast and the list is
    duplicate-free, the message is sent once to every listed connection, in
    the order of the list, and the connections that stay listed are those
    whose send returned, which are the ones delivered to. *)
Theorem predict_broadcasts_its_response
    (send_json : nat -> WebSocket -> Message -> result unit)
    (awaits : list (list change)) (req : PredictRequest)
    (manager : list WebSocket) (resp : Response) :
  predict_response Label str models welch np_mean req = Ok resp ->
  (forall i ws e,
     send_json i ws {| type_ := "prediction"; payload := resp |} = Raise e ->
     is_Exception e = true) ->
  let message := {| type_ := "prediction"; payload := resp |} in
  let out := predict_live send_json awaits req manager in
  returned out = Ok resp /\
  Forall (ManagerLaws.carries message) (events out) /\
  (Forall (fun changes => changes = []) awaits -> NoDup manager ->
   attempts Message (events out) = manager /\
   delivered Message (events out) = connections out /\
   forall i ws, manager !! i = Some ws ->
     ws ∈ connections out <-> send_json i ws message = Ok ()).
Proof.
  intros Hresp Hexc message out. unfold out, predict_live. rewrite Hresp.
  fold message. cbn [returned events connections].
  destruct (broadcast_json_live_caught send_json
              (ManagerLaws.carries message) awaits message manager)
    as [Hret Hcarries]; [done| |done|].
  { intros i ws. unfold send_event_at.
    by destruct (send_json i ws message). }
  split; [by rewrite Hret|]. split; [done|].
  intros Hquiet Hnd.
  rewrite (undisturbed_broadcast_closed_form send_json awaits message manager)
    by (done || intros i ws e _; apply Hexc).
  cbn [events connections]. split; [|split].
  - unfold attempts. rewrite omap_app.
    fold (attempts Message (sends_from send_json message 0 manager)).
    fold (attempts Message
            (Pruned Message <$> failures_from send_json message 0 manager)).
    by rewrite attempts_sends_from, attempts_Pruned, app_nil_r.
  - unfold delivered. rewrite omap_app.
    fold (delivered Message (sends_from send_json message 0 manager)).
    fold (delivered Message
            (Pruned Message <$> failures_from send_json message 0 manager)).
    by rewrite delivered_Pruned, app_nil_r, delivered_sends_from.
  - intros i ws Hi. rewrite list_elem_of_filter.
    rewrite (failures_from_lookup send_json message 0 manager i ws Hnd Hi).
    split; [tauto|]. intros Hok. split; [done|].
    by eapply list_elem_of_lookup_2.
Qed.


(** *** What is refused *)

(** X12. Data whose rows do not all have the length of the first row is
    refused by [np.array] with a [ValueError]: the request ends in a server
    error (status 500), nothing is sent, the connection list is untouched, and
    neither the rank check nor the model name is looked at. *)
Theorem predict_ragged_data_is_server_error
    (send_json : WebSocket -> Message -> result unit)
    (row : list float) (rows : list (list float)) (name : string)
    (manager : list WebSocket) :
  ~ Forall (fun r => length r = length row) rows ->
  predict Label str models welch np_mean send_json
    {| data := row :: rows; model_name := name |} manager =
  {| returned := Raise ValueError; events := []; connections := manager |} /\
  status_of ValueError = 500%Z.
Proof.
  intros Hragged. split; [|done]. unfold predict, predict_response. simpl.
  by rewrite decide_False.
Qed.

(** *** The dictionary of class probabilities *)

Lemma insert_all_lookup_notin (l : list (Label * float))
    (d : gmap string float) (k : string) :
  Forall (fun cp => str cp.1 <> k) l ->
  insert_all Label str l d !! k = d !! k.
Proof.
  revert d. induction l as [|cp l IH]; intros d Hl; [done|].
  apply Forall_cons in Hl as [Hcp Hl]. simpl.
  change (foldl _ ?d0 l) with (insert_all Label str l d0).
  rewrite IH by done. by rewrite lookup_insert_ne.
Qed.

Lemma insert_all_lookup_Some (l : list (Label * float))
    (d : gmap string float) (k : string) (q : float) :
  insert_all Label str l d !! k = Some q ->
  d !! k = Some q \/ exists cp, cp ∈ l /\ str cp.1 = k /\ cp.2 = q.
Proof.
  revert d. induction l as [|cp l IH]; intros d; [by left|]. simpl.
  change (foldl _ ?d0 l) with (insert_all Label str l d0).
  intros [Hd|(cp' & Hin & Hk & Hq)]%IH.
  - destruct (decide (str cp.1 = k)) as [Heq|Hne].
    + rewrite <- Heq, lookup_insert_eq in Hd. injection Hd as <-.
      right. exists cp. split; [by left|done].
    + rewrite lookup_insert_ne in Hd by done. by left.
  - right. exists cp'. split; [by right|done].
Qed.

Lemma insert_all_app (l1 l2 : list (Label * float)) (d : gmap string float) :
  insert_all Label str (l1 ++ l2) d =
  insert_all Label str l2 (insert_all Label str l1 d).
Proof. unfold insert_all. by rewrite foldl_app. Qed.

Lemma class_probs_dict_split (classes : list Label) (probs : list float)
    (j : nat) (c : Label) (q : float) :
  classes !! j = Some c -> probs !! j = Some q ->
  class_probs_dict Label str classes probs =
  insert_all Label str (drop (S j) (zip classes probs))
    (<[str c := q]>
       (insert_all Label str (take j (zip classes probs)) ∅)).
Proof.
  intros Hc Hq. unfold class_probs_dict.
  fold (insert_all Label str (zip classes probs) ∅).
  assert (zip classes probs !! j = Some (c, q)) as Hj.
  { apply lookup_zip_with_Some. by exists c, q. }
  by rewrite <- (take_drop_middle _ _ _ Hj) at 1; rewrite insert_all_app.
Qed.

Lemma class_probs_dict_last (j : nat) (classes : list Label)
    (probs : list float) (c : Label) (q : float) :
  classes !! j = Some c -> probs !! j = Some q ->
  (forall j' c' q', j < j' -> classes !! j' = Some c' ->
                    probs !! j' = Some q' -> str c' <> str c) ->
  class_probs_dict Label str classes probs !! str c = Some q.
Proof.
  intros Hc Hq Hlater. rewrite (class_probs_dict_split classes probs j c q)
    by done.
  rewrite insert_all_lookup_notin; [by rewrite lookup_insert_eq|].
  apply Forall_forall. intros [c' q'] Hin.
  apply list_elem_of_lookup in Hin as [i Hi]. rewrite lookup_drop in Hi.
  apply lookup_zip_with_Some in Hi as (c'' & q'' & [= <- <-] & Hc' & Hq').
  simpl. eapply Hlater; [|done..]. lia.
Qed.

Lemma class_probabilities_lookup_distinct (classes : list Label)
    (probs : list float) (j : nat) (c : Label) (q : float) :
  NoDup (str <$> classes) ->
  classes !! j = Some c -> probs !! j = Some q ->
  class_probs_dict Label str classes probs !! str c = Some q.
Proof.
  intros Hnd Hc Hq. apply (class_probs_dict_last j); [done..|].
  intros j' c' q' Hlt Hc' _ Heq.
  assert (j = j'); [|lia].
  eapply (NoDup_lookup _ _ _ _ Hnd);
    rewrite list_lookup_fmap; [rewrite Hc|rewrite Hc']; simpl; by f_equal.
Qed.

(** X14. In [class_probabilities] a class gets the probability at its own
    index unless a later class, one that also has a probability, prints to the
    same string; when a later class does, the entry of that string holds the
    probability of the last such class, not this one's. *)
Theorem class_probabilities_later_label_wins (classes : list Label)
    (probs : list float) (j : nat) (c : Label) (q : float) :
  classes !! j = Some c -> probs !! j = Some q ->
  ((forall j' c' q', j < j' -> classes !! j' = Some c' ->
                     probs !! j' = Some q' -> str c' <> str c) ->
   class_probs_dict Label str classes probs !! str c = Some q) /\
  (forall j' c' q', j < j' -> classes !! j' = Some c' ->
     probs !! j' = Some q' -> str c' = str c ->
     (forall j'' c'' q'', j' < j'' -> classes !! j'' = Some c'' ->
        probs !! j'' = Some q'' -> str c'' <> str c) ->
     class_probs_dict Label str classes probs !! str c = Some q').
Proof.
  intros Hc Hq. split.
  - by apply class_probs_dict_last.
  - intros j' c' q' _ Hc' Hq' Heq Hlater. rewrite <- Heq.
    apply (class_probs_dict_last j'); [done..|].
    intros j'' c'' q'' Hlt Hc'' Hq''. rewrite Heq. by eapply Hlater.
Qed.

(** X15. When the classes of the requested model print to different strings
    and the model returns no NaN, the [predicted_label] of a response is a key
    of its [class_probabilities], and no key has a larger probability. *)
Theorem predicted_label_has_largest_probability
    (send_json : WebSocket -> Message -> result unit)
    (req : PredictRequest) (manager : list WebSocket) (resp : Response)
    (model : Model Label) :
  returned (predict Label str models welch np_mean send_json req manager)
    = Ok resp ->
  models !! model_name req = Some model ->
  NoDup (str <$> classes_ model) ->
  (forall X_feat all_probs, predict_proba model X_feat = Ok all_probs ->
     Forall (Forall (fun q => is_nan q = false)) all_probs) ->
  exists p,
    class_probabilities resp !! predicted_label resp = Some p /\
    forall k q, class_probabilities resp !! k = Some q ->
                PrimFloat.leb q p = true.
Proof.
  intros Hret%predict_returned Hmodel Hnd Hnan.
  destruct (predict_response_Ok Label str models welch np_mean req resp Hret)
    as (rows & cols & values & X_feat & model' & all_probs & probs & i & cls
        & _ & _ & Hmodel' & Hall & Hprobs & Hidx & Hcls & ->).
  rewrite Hmodel in Hmodel'. injection Hmodel' as <-.
  assert (Forall (fun q => is_nan q = false) probs) as Hprobs_nan.
  { pose proof (Hnan _ _ Hall) as H. rewrite Forall_lookup in H. by eapply H. }
  destruct (np_argmax_spec probs i Hprobs_nan Hidx) as (p & Hp & Hmax & _).
  exists p. cbn [class_probabilities predicted_label]. split.
  - apply (class_probabilities_lookup_distinct (classes_ model) probs i);
      done.
  - intros k q Hk. unfold class_probs_dict in Hk.
    fold (insert_all Label str (zip (classes_ model) probs) ∅) in Hk.
    apply insert_all_lookup_Some in Hk as [Hk|([c' q'] & Hin & _ & Hq)];
      [by rewrite lookup_empty in Hk|].
    simpl in Hq. subst q'.
    apply list_elem_of_lookup in Hin as [j Hj].
    apply lookup_zip_with_Some in Hj as (c'' & q'' & [= <- <-] & _ & Hq').
    by eapply Hmax.
Qed.

(** *** Training and inference see the same features *)

Lemma np_array_of_trial (X : ndarray3) (trial : list (list float)) :
  Forall (fun sig => length sig = n_samples X) trial ->
  length trial = n_channels X -> 0 < n_channels X ->
  np_array trial = Ok (Array2 (n_channels X) (n_samples X) trial).
Proof.
  intros Hsigs Hlen Hpos. destruct trial as [|row rows]; [simpl in Hlen; lia|].
  apply Forall_cons in Hsigs as [Hrow Hrows]. simpl in Hlen. simpl.
  rewrite decide_True.
  - by rewrite Hrow, Hlen.
  - eapply Forall_impl; [exact Hrows|]. intros r Hr. congruence.
Qed.

(** X16. The feature vector [predict] computes for a trial is the row the
    training script computed for that trial inside its batch, whatever the
    other trials of the batch: the fitted model is handed at inference what
    it was fitted on. This needs a trial with at least one channel; the empty
    trial is a one-dimensional array for [predict]. *)
Theorem request_features_are_training_features (X_raw : ndarray3) (i : nat)
    (trial : list (list float)) (feats : list (list float)) :
  wf X_raw -> 0 < n_channels X_raw ->
  items X_raw !! i = Some trial ->
  training_features welch np_mean X_raw = Ok feats ->
  exists row,
    feats !! i = Some row /\
    request_features welch np_mean trial = Ok [row] /\
    forall name,
      predict_response Label str models welch np_mean
        {| data := trial; model_name := name |} =
      match models !! name with
      | None => Raise (HTTPException 400 "Unknown model_name")
      | Some model =>
          all_probs ← predict_proba model [row];
          probs ← getitem all_probs 0;
          pred_idx ← np_argmax probs;
          cls ← getitem (classes_ model) pred_idx;
          Ok {| response_model_name := name;
                predicted_label := str cls;
                class_probabilities :=
                  class_probs_dict Label str (classes_ model) probs |}
      end.
Proof.
  intros Hwf Hpos Htrial Hfeats. unfold training_features in Hfeats.
  rewrite extract_rows in Hfeats.
  destruct (mapM_lookup _ _ _ i i Hfeats) as (row & Hrow & Htf).
  { apply lookup_seq_lt. destruct Hwf as [<- _].
    by eapply lookup_lt_Some. }
  exists row. split; [done|].
  assert (request_features welch np_mean trial = Ok [row]) as Hreq.
  { unfold request_features. destruct Hwf as [_ Hitems].
    rewrite Forall_lookup in Hitems.
    destruct (Hitems _ _ Htrial) as [Hlen Hsigs].
    rewrite (np_array_of_trial X_raw trial) by done.
    cbn [mbind result_bind ndim]. rewrite decide_False by (intros H; by apply H).
    cbn [newaxis mbind result_bind].
    change {| n_trials := 1; n_channels := n_channels X_raw;
              n_samples := n_samples X_raw; items := [trial] |}
      with (single_trial X_raw trial).
    rewrite extract_rows. cbn [n_trials single_trial seq].
    rewrite mapM_cons.
    rewrite <- (trial_feats_single welch np_mean X_raw 256 _ _ _ i trial)
      by done.
    by rewrite Htf. }
  split; [done|]. intros name.
  rewrite predict_response_request_features. cbn [data model_name].
  by rewrite Hreq.
Qed.

End Laws.

Lemma predict_broadcasts_its_response_witness :
  predict_response string id two_models axis_estimator left_mean request_1x4
    = Ok response_1x4 /\
  (forall i ws e,
     prediction_fails_on_2 i ws
       {| type_ := "prediction"; payload := response_1x4 |} = Raise e ->
     is_Exception e = true) /\
  let message := {| type_ := "prediction"; payload := response_1x4 |} in
  let out :=
    predict_live string id two_models axis_estimator left_mean
      prediction_fails_on_2 [[]; []; []] request_1x4 [1; 2; 3] in
  returned out = Ok response_1x4 /\
  Forall (ManagerLaws.carries message) (events out) /\
  (Forall (fun changes : list change => changes = []) [[]; []; []] ->
   NoDup [1; 2; 3] ->
   attempts Message (events out) = [1; 2; 3] /\
   delivered Message (events out) = connections out /\
   forall i ws, [1; 2; 3] !! i = Some ws ->
     ws ∈ connections out <-> prediction_fails_on_2 i ws message = Ok ()).
Proof.
  assert (predict_response string id two_models axis_estimator left_mean
            request_1x4 = Ok response_1x4) as Hresp
    by (vm_compute; reflexivity).
  assert (forall i ws e,
     prediction_fails_on_2 i ws
       {| type_ := "prediction"; payload := response_1x4 |} = Raise e ->
     is_Exception e = true) as Hexc.
  { intros i ws e. unfold prediction_fails_on_2. case_decide; [|done].
    by intros [= <-]. }
  split; [exact Hresp|]. split; [exact Hexc|].
  exact (predict_broadcasts_its_response string id two_models axis_estimator
           left_mean prediction_fails_on_2 [[]; []; []] request_1x4 [1; 2; 3]
           response_1x4 Hresp Hexc).
Defined.

(** The same request while the client of connection 1 hangs up during the
    send to it and a new client joins during the next send: the response is
    returned all the same, connection 2 is not attempted, and its failing
    send, never made, does not prune it. *)
Example predict_live_run :
  let out :=
    predict_live string id two_models axis_estimator left_mean
      prediction_fails_on_2 [[Leaves 1]; [Joins 4]] request_1x4 [1; 2; 3] in
  returned out = Ok response_1x4 /\
  attempts Message (events out) = [1; 3; 4] /\
  connections out = [2; 3; 4].
Proof. vm_compute. done. Qed.

Lemma predict_ragged_data_is_server_error_witness :
  ~ Forall (fun r => length r = length [1; 2]%float) [[3]%float] /\
  predict string id two_models axis_estimator left_mean everyone_receives
    {| data := [1; 2]%float :: [[3]%float]; model_name := "lda" |} [1; 2] =
  {| returned := Raise ValueError; events := []; connections := [1; 2] |} /\
  status_of ValueError = 500%Z.
Proof.
  assert (~ Forall (fun r => length r = length [1; 2]%float) [[3]%float])
    as Hragged.
  { intros [H _]%Forall_cons. simpl in H. lia. }
  split; [exact Hragged|].
  exact (predict_ragged_data_is_server_error string id two_models
           axis_estimator left_mean everyone_receives [1; 2]%float
           [[3]%float] "lda" [1; 2] Hragged).
Defined.

Lemma class_probabilities_later_label_wins_witness :
  [1; 2] !! 0 = Some 1 /\ [0.25; 0.75]%float !! 0 = Some 0.25%float /\
  ((forall j' c' q', 0 < j' -> [1; 2] !! j' = Some c' ->
      [0.25; 0.75]%float !! j' = Some q' -> same_string c' <> same_string 1) ->
   class_probs_dict nat same_string [1; 2] [0.25; 0.75]%float
     !! same_string 1 = Some 0.25%float) /\
  (forall j' c' q', 0 < j' -> [1; 2] !! j' = Some c' ->
     [0.25; 0.75]%float !! j' = Some q' -> same_string c' = same_string 1 ->
     (forall j'' c'' q'', j' < j'' -> [1; 2] !! j'' = Some c'' ->
        [0.25; 0.75]%float !! j'' = Some q'' ->
        same_string c'' <> same_string 1) ->
     class_probs_dict nat same_string [1; 2] [0.25; 0.75]%float
       !! same_string 1 = Some q').
Proof.
  split; [reflexivity|]. split; [reflexivity|].
  exact (class_probabilities_later_label_wins nat same_string [1; 2]
           [0.25; 0.75]%float 0 1 0.25%float eq_refl eq_refl).
Defined.

(** Two classes that print alike: the entry holds the later probability. *)
Example class_probabilities_collapse :
  class_probs_dict nat same_string [1; 2] [0.25; 0.75]%float
  = {[ "class" := 0.75%float ]}.
Proof. vm_compute. reflexivity. Qed.

Lemma predicted_label_has_largest_probability_witness :
  returned (predict string id two_models axis_estimator left_mean
              everyone_receives request_1x4 [1; 2]) = Ok response_1x4 /\
  two_models !! model_name request_1x4 = Some tied_model /\
  NoDup (id <$> classes_ tied_model) /\
  (forall X_feat all_probs, predict_proba tied_model X_feat = Ok all_probs ->
     Forall (Forall (fun q => is_nan q = false)) all_probs) /\
  exists p,
    class_probabilities response_1x4 !! predicted_label response_1x4 = Some p /\
    forall k q, class_probabilities response_1x4 !! k = Some q ->
                PrimFloat.leb q p = true.
Proof.
  assert (returned (predict string id two_models axis_estimator left_mean
                      everyone_receives request_1x4 [1; 2])
          = Ok response_1x4) as Hret
    by (vm_compute; reflexivity).
  assert (two_models !! model_name request_1x4 = Some tied_model) as Hmodel
    by reflexivity.
  assert (NoDup (id <$> classes_ tied_model)) as Hnd
    by (by apply (bool_decide_unpack _)).
  assert (forall X_feat all_probs,
            predict_proba tied_model X_feat = Ok all_probs ->
            Forall (Forall (fun q => is_nan q = false)) all_probs) as Hnan.
  { intros X_feat all_probs [= <-]. apply Forall_fmap, Forall_forall.
    intros row _. simpl. repeat constructor. }
  split; [exact Hret|]. split; [exact Hmodel|]. split; [exact Hnd|].
  split; [exact Hnan|].
  exact (predicted_label_has_largest_probability string id two_models
           axis_estimator left_mean everyone_receives request_1x4 [1; 2]
           response_1x4 tied_model Hret Hmodel Hnd Hnan).
Defined.

Lemma request_features_are_training_features_witness :
  wf X2 /\ 0 < n_channels X2 /\
  items X2 !! 1 = Some [[0.5; 8; 0.25; 16]%float] /\
  training_features axis_estimator left_mean X2
    = Ok (replicate 2 (replicate 12 0%float)) /\
  exists row,
    replicate 2 (replicate 12 0%float) !! 1 = Some row /\
    request_features axis_estimator left_mean [[0.5; 8; 0.25; 16]%float]
      = Ok [row] /\
    forall name,
      predict_response string id two_models axis_estimator left_mean
        {| data := [[0.5; 8; 0.25; 16]%float]; model_name := name |} =
      match two_models !! name with
      | None => Raise (HTTPException 400 "Unknown model_name")
      | Some model =>
          all_probs ← predict_proba model [row];
          probs ← getitem all_probs 0;
          pred_idx ← np_argmax probs;
          cls ← getitem (classes_ model) pred_idx;
          Ok {| response_model_name := name;
                predicted_label := id cls;
                class_probabilities :=
                  class_probs_dict string id (classes_ model) probs |}
      end.
Proof.
  assert (wf X2) as Hwf by solve_wf.
  assert (0 < n_channels X2) as Hpos by (simpl; lia).
  assert (training_features axis_estimator left_mean X2
          = Ok (replicate 2 (replicate 12 0%float))) as Hfeats
    by (vm_compute; reflexivity).
  split; [exact Hwf|]. split; [exact Hpos|]. split; [reflexivity|].
  split; [exact Hfeats|].
  exact (request_features_are_training_features string id two_models
           axis_estimator left_mean X2 1 [[0.5; 8; 0.25; 16]%float]
           (replicate 2 (replicate 12 0%float)) Hwf Hpos eq_refl Hfeats).
Defined.

End PredictLaws.

(** ** backend/mock_data.py and the data set of backend/train_models.py *)

Module MockData.

Import Features.

(** [int(x)] on a float: truncation towards zero, [OverflowError] on an
    infinity and [ValueError] on NaN. *)
Definition int_of_float (x : float) : result Z :=
  match Prim2SF x with
  | S754_zero _ => Ok 0%Z
  | S754_infinity _ => Raise OverflowError
  | S754_nan => Raise ValueError
  | S754_finite s m e =>
      let a := if (0 <=? e)%Z then (Z.pos m * 2 ^ e)%Z
               else (Z.pos m / 2 ^ (- e))%Z in
      Ok (if s then (- a)%Z else a)
  end.

(** The bound of a slice on a sequence of [len] items: a negative bound counts
    from the end, and every bound is clipped to the sequence. *)
Definition slice_index (i : Z) (len : nat) : nat :=
  if (i <? 0)%Z then Z.to_nat (Z.max (i + Z.of_nat len) 0)
  else Z.to_nat (Z.min i (Z.of_nat len)).

(** [l[a:b]] *)
Definition py_slice {A : Type} (l : list A) (a b : Z) : list A :=
  let s := slice_index a (length l) in
  let e := slice_index b (length l) in
  take (e - s) (drop s l).

(** [signal[a:b] += seg] on one-dimensional arrays: elementwise when the
    lengths agree, a one-element [seg] is broadcast, anything else is a shape
    mismatch. *)
Definition iadd_slice (signal : list float) (a b : Z) (seg : list float)
  : result (list float) :=
  let s := slice_index a (length signal) in
  let e := slice_index b (length signal) in
  let k := e - s in
  if decide (length seg = k) then
    Ok (take s signal
        ++ zip_with PrimFloat.add (take k (drop s signal)) seg
        ++ drop (s + k) signal)
  else
    match seg with
    | [x] =>
        Ok (take s signal
            ++ ((fun y => PrimFloat.add y x) <$> take k (drop s signal))
            ++ drop (s + k) signal)
    | _ => Raise ValueError
    end.

(** The same assignment when the segment has the length of the slice, which
    starts at [s] and has [k] items. *)
Definition add_in_window (s k : nat) (seg signal : list float) : list float :=
  take s signal
  ++ zip_with PrimFloat.add (take k (drop s signal)) seg
  ++ drop (s + k) signal.

(** [np.pi] *)
Definition np_pi : float := 0x1.921fb54442d18p+1%float.

(** What [np.array(data)] is for the nested list the loops build: without a
    trial a one-dimensional empty array, without a channel a two-dimensional
    array with no column, and otherwise the three-dimensional batch. Nested
    lists that are not rectangular are refused. *)
Inductive mock_array : Type :=
  | Empty1
  | Empty2 (rows : nat)
  | Batch (X : ndarray3).

Definition np_array_nested (data : list (list (list float)))
  : result mock_array :=
  match data with
  | [] => Ok Empty1
  | trial :: _ =>
      let X := {| n_trials := length data; n_channels := length trial;
                  n_samples := length (default [] (head trial));
                  items := data |} in
      if decide (wf X) then
        match trial with
        | [] => Ok (Empty2 (length data))
        | _ :: _ => Ok (Batch X)
        end
      else Raise ValueError
  end.

Section Generate.

(** The state of a NumPy generator, [np.random.default_rng(random_state)], and
    [rng.normal(loc, scale, size)], which returns the draws and the state
    after them, or raises. *)
Variable RNG : Type.
Variable default_rng : option Z -> RNG.
Variable rng_normal : RNG -> float -> float -> nat -> result (list float * RNG).

(** [np.sin] on one number, and [np.linspace(start, stop, num,
    endpoint=False)]. *)
Variable np_sin : float -> float.
Variable np_linspace : float -> float -> nat -> list float.

(** [carrier + harmonic2 + harmonic3] at one time of the stimulus window, and
    over all of them. *)
Definition ssvep_value (freq t : float) : float :=
  let carrier :=
    np_sin (PrimFloat.mul (PrimFloat.mul (PrimFloat.mul 2 np_pi) freq) t) in
  let harmonic2 :=
    PrimFloat.mul 0.5
      (np_sin (PrimFloat.mul
                 (PrimFloat.mul (PrimFloat.mul (PrimFloat.mul 2 np_pi) 2)
                                freq) t)) in
  let harmonic3 :=
    PrimFloat.mul 0.25
      (np_sin (PrimFloat.mul
                 (PrimFloat.mul (PrimFloat.mul (PrimFloat.mul 2 np_pi) 3)
                                freq) t)) in
  PrimFloat.add (PrimFloat.add carrier harmonic2) harmonic3.

Definition ssvep_segment (freq : float) (times : list float) : list float :=
  ssvep_value freq <$> times.

(** [generate_mock_ssvep]; [n_trials] and [n_channels] count loop rounds, so
    they are natural numbers. *)
Definition generate_mock_ssvep (direction : string) (freq : float)
    (n_trials n_channels : nat) (duration : float) (fs : Z)
    (noise_std : float) (random_state : option Z)
  : result (mock_array * list string) :=
  let rng := default_rng random_state in
  product ← float_mul_int duration fs;
  n_samples ← int_of_float product;
  if (n_samples <? 0)%Z then Raise ValueError
  else
    let n_samples := Z.to_nat n_samples in
    let time := np_linspace 0 duration n_samples in
    let stim_start := (2 * fs)%Z in
    let stim_end := (5 * fs)%Z in
    '(rng, data) ←
      for_ (seq 0 n_trials) (fun _ '(rng, data) =>
        '(rng, trial) ←
          for_ (seq 0 n_channels) (fun _ '(rng, trial) =>
            '(signal, rng) ← rng_normal rng 0 noise_std n_samples;
            let ssvep_segment :=
              ssvep_segment freq (py_slice time stim_start stim_end) in
            signal ← iadd_slice signal stim_start stim_end ssvep_segment;
            Ok (rng, trial ++ [signal])) (rng, []);
        Ok (rng, data ++ [trial])) (rng, []);
    X_data ← np_array_nested data;
    Ok (X_data, replicate n_trials direction).

(** [build_dataset_from_mock]: the four directions in the order of the
    dictionary, each generated with [random_state=42], eight channels, seven
    seconds and a noise of 0.3, and concatenated along the trials. *)
Definition directions : list (string * float) :=
  [("up", 10); ("down", 20); ("left", 12); ("right", 15)]%float.

(** [np.concatenate(X_list, axis=0)], as the nested list of the items of the
    result: the arrays must have the same rank and agree on every dimension
    but the first, and there must be one at least. *)
Definition trailing_shape (X : mock_array) : list nat :=
  match X with
  | Empty1 => []
  | Empty2 _ => [0]
  | Batch X => [n_channels X; n_samples X]
  end.

Definition items_of (X : mock_array) : list (list (list float)) :=
  match X with
  | Empty1 => []
  | Empty2 rows => replicate rows []
  | Batch X => items X
  end.

Definition concatenate_batches (X_list : list mock_array)
  : result (list (list (list float))) :=
  match X_list with
  | [] => Raise ValueError
  | X :: rest =>
      if decide (Forall (fun X' => trailing_shape X' = trailing_shape X) rest)
      then Ok (mjoin (items_of <$> X_list))
      else Raise ValueError
  end.

Definition build_dataset_from_mock (n_trials_per_class : nat) (fs : Z)
  : result (list (list (list float)) * list string) :=
  lists ←
    for_ directions
      (fun (item : string * float)
           (lists : list mock_array * list (list string)) =>
         let '(direction, f) := item in
         let '(X_list, y_list) := lists in
         generated ←
           generate_mock_ssvep direction f n_trials_per_class 8 7 fs
             0x1.3333333333333p-2%float (Some 42%Z);
         let '(X_dir, y_dir) := generated in
         Ok (X_list ++ [X_dir], y_list ++ [y_dir]))
      ([], []);
  X_all ← concatenate_batches lists.1;
  Ok (X_all, mjoin (M := list) lists.2).

(** *** Slices *)

Lemma slice_index_le (i : Z) (len : nat) : slice_index i len <= len.
Proof. unfold slice_index. destruct (i <? 0)%Z eqn:?; lia. Qed.

Lemma slice_index_nonneg (i : Z) (len : nat) :
  (0 <= i)%Z -> slice_index i len = Z.to_nat i `min` len.
Proof. intros Hi. unfold slice_index. destruct (i <? 0)%Z eqn:?; lia. Qed.

Lemma length_py_slice {A} (l : list A) (a b : Z) :
  length (py_slice l a b) =
  slice_index b (length l) - slice_index a (length l).
Proof.
  unfold py_slice. rewrite length_take, length_drop.
  pose proof (slice_index_le b (length l)). lia.
Qed.

Lemma length_add_in_window (s k : nat) (seg signal : list float) :
  length seg = k -> s + k <= length signal ->
  length (add_in_window s k seg signal) = length signal.
Proof.
  intros Hseg Hk. unfold add_in_window.
  rewrite !length_app, length_zip_with, !length_take, !length_drop. lia.
Qed.

Lemma add_in_window_outside (s k : nat) (seg signal : list float) (i : nat) :
  length seg = k -> s + k <= length signal ->
  i < s \/ s + k <= i ->
  add_in_window s k seg signal !! i = signal !! i.
Proof.
  intros Hseg Hk Hi. unfold add_in_window.
  assert (length (take s signal) = s) as Hs by (rewrite length_take; lia).
  assert (length (zip_with PrimFloat.add (take k (drop s signal)) seg) = k)
    as Hz by (rewrite length_zip_with, length_take, length_drop; lia).
  destruct Hi as [Hi|Hi].
  - rewrite lookup_app_l by lia. by rewrite lookup_take_lt.
  - rewrite lookup_app_r by lia. rewrite lookup_app_r by lia.
    rewrite lookup_drop, Hs, Hz. f_equal. lia.
Qed.


Lemma iadd_slice_segment (signal time : list float) (freq : float) (a b : Z) :
  length time = length signal ->
  iadd_slice signal a b (ssvep_segment freq (py_slice time a b)) =
  Ok (add_in_window (slice_index a (length signal))
        (slice_index b (length signal) - slice_index a (length signal))
        (ssvep_segment freq (py_slice time a b)) signal).
Proof.
  intros Hlen. unfold iadd_slice, add_in_window.
  rewrite decide_True; [done|].
  unfold ssvep_segment. by rewrite length_fmap, length_py_slice, Hlen.
Qed.

(** *** The two loops *)

Section Draws.

(** A generator that gives [n] draws at every call: [noise rng] are the draws
    from the state [rng] and [next rng] the state after them. *)
Variables (noise_std : float) (n : nat).
Variables (noise : RNG -> list float) (next : RNG -> RNG).
Hypothesis rng_normal_draws :
  forall rng, rng_normal rng 0 noise_std n = Ok (noise rng, next rng).
Hypothesis noise_length : forall rng, length (noise rng) = n.

Variables (freq : float) (time : list float) (stim_start stim_end : Z).
Hypothesis time_length : length time = n.

(** The signal of the [j]-th call of the generator, counted from the state
    [rng]. *)
Definition drawn_signal (rng : RNG) (j : nat) : list float :=
  add_in_window (slice_index stim_start n)
    (slice_index stim_end n - slice_index stim_start n)
    (ssvep_segment freq (py_slice time stim_start stim_end))
    (noise (Nat.iter j next rng)).

Lemma channel_loop (xs : list nat) (rng : RNG) (trial : list (list float)) :
  for_ xs (fun _ '(rng, trial) =>
    '(signal, rng) ← rng_normal rng 0 noise_std n;
    let ssvep_segment :=
      ssvep_segment freq (py_slice time stim_start stim_end) in
    signal ← iadd_slice signal stim_start stim_end ssvep_segment;
    Ok (rng, trial ++ [signal])) (rng, trial) =
  Ok (Nat.iter (length xs) next rng,
      trial ++ (drawn_signal rng <$> seq 0 (length xs))).
Proof.
  revert rng trial. induction xs as [|x xs IH]; intros rng trial.
  - simpl. by rewrite app_nil_r.
  - cbn [for_]. rewrite rng_normal_draws. cbn [mbind result_bind].
    rewrite iadd_slice_segment by (by rewrite time_length, noise_length).
    cbn [mbind result_bind]. rewrite IH, noise_length.
    cbn [length seq]. rewrite <- fmap_S_seq, fmap_cons, <- list_fmap_compose.
    rewrite <- app_assoc. cbn [app]. f_equal. f_equal.
    + by rewrite <- Nat.iter_succ_r.
    + f_equal. apply (f_equal2 cons); [done|].
      apply list_fmap_ext. intros _ j _.
      unfold drawn_signal. simpl. by rewrite <- Nat.iter_succ_r.
Qed.

Lemma trial_loop (n_channels : nat) (xs : list nat) (rng : RNG)
    (data : list (list (list float))) :
  for_ xs (fun _ '(rng, data) =>
    '(rng, trial) ←
      for_ (seq 0 n_channels) (fun _ '(rng, trial) =>
        '(signal, rng) ← rng_normal rng 0 noise_std n;
        let ssvep_segment :=
          ssvep_segment freq (py_slice time stim_start stim_end) in
        signal ← iadd_slice signal stim_start stim_end ssvep_segment;
        Ok (rng, trial ++ [signal])) (rng, []);
    Ok (rng, data ++ [trial])) (rng, data) =
  Ok (Nat.iter (length xs * n_channels) next rng,
      data ++ ((fun t => (fun ch => drawn_signal rng (t * n_channels + ch))
                           <$> seq 0 n_channels)
               <$> seq 0 (length xs))).
Proof.
  revert rng data. induction xs as [|x xs IH]; intros rng data.
  - simpl. by rewrite app_nil_r.
  - cbn [for_]. rewrite channel_loop. cbn [mbind result_bind].
    rewrite IH, length_seq. cbn [length seq app].
    rewrite <- fmap_S_seq, fmap_cons, <- list_fmap_compose.
    rewrite <- app_assoc. cbn [app]. f_equal. f_equal.
    + rewrite <- Nat.iter_add.
      by replace (S (length xs) * n_channels)
        with (length xs * n_channels + n_channels) by (simpl; lia).
    + f_equal. apply (f_equal2 cons); [done|].
      apply list_fmap_ext. intros _ t _. simpl.
      apply list_fmap_ext. intros _ ch _. unfold drawn_signal.
      rewrite <- Nat.iter_add.
      by replace (n_channels + t * n_channels + ch)
        with (t * n_channels + ch + n_channels) by lia.
Qed.

Lemma length_drawn_signal (rng : RNG) (j : nat) :
  length (drawn_signal rng j) = n.
Proof.
  unfold drawn_signal. rewrite length_add_in_window; [apply noise_length| |].
  - unfold ssvep_segment.
    by rewrite length_fmap, length_py_slice, time_length.
  - rewrite noise_length. pose proof (slice_index_le stim_start n).
    pose proof (slice_index_le stim_end n). lia.
Qed.

End Draws.

(** *** The generated batch *)

(** The batch of [n_trials] trials of [n_channels] channels whose signals are
    the successive draws of the generator, each with the segment added. *)
Definition drawn_batch (n_trials n_channels n : nat)
    (noise : RNG -> list float) (next : RNG -> RNG) (freq : float)
    (time : list float) (stim_start stim_end : Z) (rng : RNG) : ndarray3 :=
  {| n_trials := n_trials; n_channels := n_channels; n_samples := n;
     items :=
       (fun t =>
          (fun ch => drawn_signal n noise next freq time stim_start stim_end
                       rng (t * n_channels + ch)) <$> seq 0 n_channels)
       <$> seq 0 n_trials |}.

Lemma drawn_batch_wf (T C n : nat) (noise_std : float)
    (noise : RNG -> list float) (next : RNG -> RNG) (freq : float)
    (time : list float) (stim_start stim_end : Z) (rng : RNG) :
  (forall rng, rng_normal rng 0 noise_std n = Ok (noise rng, next rng)) ->
  (forall rng, length (noise rng) = n) -> length time = n ->
  wf (drawn_batch T C n noise next freq time stim_start stim_end rng).
Proof.
  intros Hrng Hnoise Htime.
  split; cbn [items n_trials n_channels n_samples drawn_batch].
  - by rewrite length_fmap, length_seq.
  - apply Forall_fmap, Forall_forall. intros t _. simpl. split.
    + by rewrite length_fmap, length_seq.
    + apply Forall_fmap, Forall_forall. intros ch _. simpl.
      by eapply length_drawn_signal.
Qed.


Lemma generate_mock_ssvep_closed_form (direction : string) (freq : float)
    (n_trials n_channels : nat) (duration : float) (fs : Z)
    (noise_std : float) (random_state : option Z) (product : float) (nz : Z)
    (noise : RNG -> list float) (next : RNG -> RNG) :
  float_mul_int duration fs = Ok product -> int_of_float product = Ok nz ->
  (0 <= nz)%Z ->
  (forall rng, rng_normal rng 0 noise_std (Z.to_nat nz)
               = Ok (noise rng, next rng)) ->
  (forall rng, length (noise rng) = Z.to_nat nz) ->
  length (np_linspace 0 duration (Z.to_nat nz)) = Z.to_nat nz ->
  0 < n_trials -> 0 < n_channels ->
  generate_mock_ssvep direction freq n_trials n_channels duration fs noise_std
    random_state =
  Ok (Batch (drawn_batch n_trials n_channels (Z.to_nat nz) noise next freq
               (np_linspace 0 duration (Z.to_nat nz)) (2 * fs) (5 * fs)
               (default_rng random_state)),
      replicate n_trials direction).
Proof.
  intros Hprod Hint Hnz Hrng Hnoise Htime Ht Hc.
  unfold generate_mock_ssvep. rewrite Hprod. cbn [mbind result_bind].
  rewrite Hint. cbn [mbind result_bind].
  destruct (nz <? 0)%Z eqn:Hneg; [lia|].
  rewrite (trial_loop noise_std (Z.to_nat nz) noise next Hrng Hnoise freq
             (np_linspace 0 duration (Z.to_nat nz)) (2 * fs) (5 * fs) Htime).
  cbn [mbind result_bind app]. rewrite length_seq.
  pose proof (drawn_batch_wf n_trials n_channels (Z.to_nat nz) noise_std noise
                next freq (np_linspace 0 duration (Z.to_nat nz)) (2 * fs)
                (5 * fs) (default_rng random_state) Hrng Hnoise Htime) as Hwf.
  unfold drawn_batch in *.
  destruct n_trials as [|T]; [lia|]. destruct n_channels as [|C]; [lia|].
  remember (Z.to_nat nz) as n eqn:Hn.
  cbn [seq fmap list_fmap np_array_nested head default length id] in *.
  rewrite !length_fmap, !length_seq.
  rewrite length_drawn_signal by done.
  by rewrite decide_True.
Qed.

(** *** Inside and outside the stimulus window *)

Lemma drawn_signal_outside (n : nat) (noise : RNG -> list float)
    (next : RNG -> RNG) (freq : float) (time : list float) (fs : Z)
    (rng : RNG) (j i : nat) :
  (forall rng, length (noise rng) = n) -> length time = n -> (0 <= fs)%Z ->
  (Z.of_nat i < 2 * fs \/ 5 * fs <= Z.of_nat i)%Z ->
  drawn_signal n noise next freq time (2 * fs) (5 * fs) rng j !! i =
  noise (Nat.iter j next rng) !! i.
Proof.
  intros Hnoise Htime Hfs Hi. unfold drawn_signal.
  rewrite !slice_index_nonneg by lia.
  apply add_in_window_outside.
  - unfold ssvep_segment.
    rewrite length_fmap, length_py_slice, Htime.
    by rewrite !slice_index_nonneg by lia.
  - rewrite Hnoise. lia.
  - destruct (decide (i < n)); lia.
Qed.






(** *** The data set of the training script *)

Lemma lookup_mjoin_uniform {A} (N : nat) (ls : list (list A)) (k t : nat)
    (l : list A) :
  Forall (fun l => length l = N) ls -> ls !! k = Some l -> t < N ->
  mjoin ls !! (k * N + t) = l !! t.
Proof.
  intros Hls. revert k. induction Hls as [|l' ls Hl' Hls IH]; intros k Hk Ht.
  - done.
  - change (mjoin (l' :: ls)) with (l' ++ mjoin ls).
    destruct k as [|k].
    + injection Hk as ->. simpl. apply lookup_app_l. lia.
    + simpl in Hk. rewrite lookup_app_r by (rewrite Hl'; simpl; lia).
      rewrite <- (IH k Hk Ht). f_equal. rewrite Hl'. simpl. lia.
Qed.

(** The trials of one class of the data set. *)
Definition class_trials (n_trials_per_class n : nat)
    (noise : RNG -> list float) (next : RNG -> RNG) (fs : Z)
    (item : string * float) : list (list (list float)) :=
  items (drawn_batch n_trials_per_class 8 n noise next item.2
           (np_linspace 0 7 n) (2 * fs) (5 * fs) (default_rng (Some 42%Z))).

Lemma build_dataset_from_mock_closed_form (n_trials_per_class : nat) (fs : Z)
    (product : float) (nz : Z) (noise : RNG -> list float)
    (next : RNG -> RNG) :
  float_mul_int 7 fs = Ok product -> int_of_float product = Ok nz ->
  (0 <= nz)%Z ->
  (forall rng, rng_normal rng 0 0x1.3333333333333p-2 (Z.to_nat nz)
               = Ok (noise rng, next rng)) ->
  (forall rng, length (noise rng) = Z.to_nat nz) ->
  length (np_linspace 0 7 (Z.to_nat nz)) = Z.to_nat nz ->
  0 < n_trials_per_class ->
  build_dataset_from_mock n_trials_per_class fs =
  Ok (mjoin (class_trials n_trials_per_class (Z.to_nat nz) noise next fs
             <$> directions),
      mjoin (M := list)
        ((fun item => replicate n_trials_per_class item.1) <$> directions)).
Proof.
  intros Hprod Hint Hnz Hrng Hnoise Htime Hpos.
  unfold build_dataset_from_mock, directions. cbn [for_].
  rewrite !(generate_mock_ssvep_closed_form _ _ _ _ _ _ _ _ product nz noise
              next) by (done || lia).
  cbn [mbind result_bind app]. unfold concatenate_batches.
  simpl fst. simpl snd. cbv beta iota.
  rewrite decide_True by (by repeat constructor).
  done.
Qed.

(** X20. The data set of the training script holds the four classes in the
    order of the dictionary, up, down, left, right, [n_trials_per_class]
    trials each: the trial at position [k * n_trials_per_class + t] is trial
    [t] of what [generate_mock_ssvep] returns for the [k]-th direction and its
    frequency (with eight channels, seven seconds, noise 0.3 and seed 42),
    and the label at that position is that direction. So there are
    [4 * n_trials_per_class] trials, each of eight channels of
    [int(7.0 * fs)] samples, and trials and labels are in the same order. *)
Theorem build_dataset_from_mock_classes_in_order (n_trials_per_class : nat)
    (fs : Z) (product : float) (nz : Z) (noise : RNG -> list float)
    (next : RNG -> RNG) :
  float_mul_int 7 fs = Ok product -> int_of_float product = Ok nz ->
  (0 <= nz)%Z ->
  (forall rng, rng_normal rng 0 0x1.3333333333333p-2 (Z.to_nat nz)
               = Ok (noise rng, next rng)) ->
  (forall rng, length (noise rng) = Z.to_nat nz) ->
  length (np_linspace 0 7 (Z.to_nat nz)) = Z.to_nat nz ->
  0 < n_trials_per_class ->
  let y_all :=
    replicate n_trials_per_class "up"
    ++ replicate n_trials_per_class "down"
    ++ replicate n_trials_per_class "left"
    ++ replicate n_trials_per_class "right" in
  exists X_all,
    build_dataset_from_mock n_trials_per_class fs = Ok (X_all, y_all) /\
    length X_all = 4 * n_trials_per_class /\
    Forall (fun trial =>
              length trial = 8 /\
              Forall (fun sig => length sig = Z.to_nat nz) trial) X_all /\
    forall k direction freq t,
      [("up", 10); ("down", 20); ("left", 12); ("right", 15)]%float !! k
        = Some (direction, freq) ->
      t < n_trials_per_class ->
      exists X_dir trial,
        generate_mock_ssvep direction freq n_trials_per_class 8 7 fs
          0x1.3333333333333p-2 (Some 42%Z)
        = Ok (Batch X_dir, replicate n_trials_per_class direction) /\
        items X_dir !! t = Some trial /\
        X_all !! (k * n_trials_per_class + t) = Some trial /\
        y_all !! (k * n_trials_per_class + t) = Some direction.
Proof.
  intros Hprod Hint Hnz Hrng Hnoise Htime Hpos y_all.
  assert (y_all = mjoin ((fun item : string * float =>
                            replicate n_trials_per_class item.1)
                         <$> directions)) as Hy.
  { unfold y_all. simpl. by rewrite app_nil_r. }
  eexists. split.
  { erewrite build_dataset_from_mock_closed_form by done. by rewrite Hy. }
  assert (forall f,
            wf (drawn_batch n_trials_per_class 8 (Z.to_nat nz) noise next
                  f (np_linspace 0 7 (Z.to_nat nz)) (2 * fs) (5 * fs)
                  (default_rng (Some 42%Z)))) as Hwf
    by (intros f; by eapply drawn_batch_wf).
  split; [|split].
  - unfold directions. cbn [fmap list_fmap].
    change (mjoin (?a :: ?b :: ?c :: ?d :: [])) with (a ++ b ++ c ++ d ++ []).
    rewrite !length_app. unfold class_trials.
    rewrite !(proj1 (Hwf _)). simpl. lia.
  - unfold directions. cbn [fmap list_fmap].
    change (mjoin (?a :: ?b :: ?c :: ?d :: [])) with (a ++ b ++ c ++ d ++ []).
    rewrite !Forall_app. unfold class_trials.
    repeat split; try exact (proj2 (Hwf _)). constructor.
  - intros k direction freq t Hk Ht.
    change ([("up", 10); ("down", 20); ("left", 12); ("right", 15)]%float)
      with directions in Hk.
    eexists _, _. split; [|split; [|split]].
    + eapply generate_mock_ssvep_closed_form; (done || lia).
    + unfold drawn_batch. cbn [items].
      by rewrite list_lookup_fmap, lookup_seq_lt.
    + rewrite (lookup_mjoin_uniform n_trials_per_class _ k t
                 (class_trials n_trials_per_class (Z.to_nat nz) noise next fs
                    (direction, freq))).
      * unfold class_trials, drawn_batch. cbn [items snd].
        by rewrite list_lookup_fmap, lookup_seq_lt.
      * apply Forall_fmap, Forall_forall. intros item _. simpl.
        unfold class_trials, drawn_batch. cbn [items].
        by rewrite length_fmap, length_seq.
      * by rewrite list_lookup_fmap, Hk.
      * done.
    + rewrite Hy.
      rewrite (lookup_mjoin_uniform n_trials_per_class _ k t
                 (replicate n_trials_per_class direction)).
      * by apply lookup_replicate_2.
      * apply Forall_fmap, Forall_forall. intros item _. simpl.
        by rewrite length_replicate.
      * by rewrite list_lookup_fmap, Hk.
      * done.
Qed.

(** [X[t][ch]] of a nested list. *)
Definition signal_at (X : list (list (list float))) (t ch : nat)
  : option (list float) :=
  trial ← X !! t; trial !! ch.

(** X21. Every class of the data set is generated from the seed 42, so the
    four classes share their draws: trial [t] of one class and trial [t] of
    another have, channel by channel, the same samples before [2 * fs] and
    from [5 * fs] on. The classes differ inside the stimulus window only. *)
Theorem build_dataset_from_mock_classes_share_noise
    (n_trials_per_class : nat) (fs : Z) (product : float) (nz : Z)
    (noise : RNG -> list float) (next : RNG -> RNG) :
  float_mul_int 7 fs = Ok product -> int_of_float product = Ok nz ->
  (0 <= nz)%Z ->
  (forall rng, rng_normal rng 0 0x1.3333333333333p-2 (Z.to_nat nz)
               = Ok (noise rng, next rng)) ->
  (forall rng, length (noise rng) = Z.to_nat nz) ->
  length (np_linspace 0 7 (Z.to_nat nz)) = Z.to_nat nz ->
  0 < n_trials_per_class -> (0 <= fs)%Z ->
  exists X_all y_all,
    build_dataset_from_mock n_trials_per_class fs = Ok (X_all, y_all) /\
    forall k k' t ch,
      k < 4 -> k' < 4 -> t < n_trials_per_class -> ch < 8 ->
      exists sig sig',
        signal_at X_all (k * n_trials_per_class + t) ch = Some sig /\
        signal_at X_all (k' * n_trials_per_class + t) ch = Some sig' /\
        forall i, (Z.of_nat i < 2 * fs \/ 5 * fs <= Z.of_nat i)%Z ->
                  sig !! i = sig' !! i.
Proof.
  intros Hprod Hint Hnz Hrng Hnoise Htime Hpos Hfs.
  eexists _, _. split; [by eapply build_dataset_from_mock_closed_form|].
  assert (forall k t ch,
            k < 4 -> t < n_trials_per_class -> ch < 8 ->
            exists f,
              signal_at
                (mjoin (class_trials n_trials_per_class (Z.to_nat nz) noise
                          next fs <$> directions))
                (k * n_trials_per_class + t) ch =
              Some (drawn_signal (Z.to_nat nz) noise next f
                      (np_linspace 0 7 (Z.to_nat nz)) (2 * fs) (5 * fs)
                      (default_rng (Some 42%Z)) (t * 8 + ch))) as Hsig.
  { intros k t ch Hk Ht Hch.
    destruct (lookup_lt_is_Some_2 directions k) as [item Hitem]; [done|].
    exists item.2. unfold signal_at.
    rewrite (lookup_mjoin_uniform n_trials_per_class _ k t
               (class_trials n_trials_per_class (Z.to_nat nz) noise next fs
                  item)).
    - unfold class_trials, drawn_batch. cbn [items].
      rewrite list_lookup_fmap, lookup_seq_lt by done. cbn [fmap option_fmap
        option_map mbind option_bind].
      by rewrite list_lookup_fmap, lookup_seq_lt.
    - apply Forall_fmap, Forall_forall. intros item' _. simpl.
      unfold class_trials, drawn_batch. cbn [items].
      by rewrite length_fmap, length_seq.
    - by rewrite list_lookup_fmap, Hitem.
    - done. }
  intros k k' t ch Hk Hk' Ht Hch.
  destruct (Hsig k t ch Hk Ht Hch) as [f Hf].
  destruct (Hsig k' t ch Hk' Ht Hch) as [f' Hf'].
  eexists _, _. split; [exact Hf|]. split; [exact Hf'|].
  intros i Hi. by rewrite !drawn_signal_outside.
Qed.

End Generate.

(** *** A generator, a sine and a time vector to run the code on *)

(** A generator whose state counts its calls and whose [i]-th draw from the
    state [rng] is [rng + i]; the seed is the first state. *)
Definition seeded (random_state : option Z) : nat :=
  from_option Z.to_nat 0 random_state.

Definition counting_noise (size rng : nat) : list float :=
  (fun i => Z2float (Z.of_nat (rng + i))) <$> seq 0 size.

Definition counting_normal (rng : nat) (loc scale : float) (size : nat)
  : result (list float * nat) :=
  Ok (counting_noise size rng, S rng).

(** [start + i * ((stop - start) / num)] for [i] below [num]. *)
Definition linspace (start stop : float) (num : nat) : list float :=
  (fun i =>
     PrimFloat.add start
       (PrimFloat.mul (Z2float (Z.of_nat i))
          (PrimFloat.div (PrimFloat.sub stop start) (Z2float (Z.of_nat num)))))
  <$> seq 0 num.

(** The sine of a small angle. *)
Definition small_angle_sin (x : float) : float := x.

Lemma length_counting_noise (size rng : nat) :
  length (counting_noise size rng) = size.
Proof. unfold counting_noise. by rewrite length_fmap, length_seq. Qed.

Lemma length_linspace (start stop : float) (num : nat) :
  length (linspace start stop num) = num.
Proof. unfold linspace. by rewrite length_fmap, length_seq. Qed.




Lemma build_dataset_from_mock_classes_in_order_witness :
  float_mul_int 7 1 = Ok 7%float /\ int_of_float 7 = Ok 7%Z /\
  (0 <= 7)%Z /\
  (forall rng, counting_normal rng 0 0x1.3333333333333p-2 (Z.to_nat 7)
               = Ok (counting_noise (Z.to_nat 7) rng, S rng)) /\
  (forall rng, length (counting_noise (Z.to_nat 7) rng) = Z.to_nat 7) /\
  length (linspace 0 7 (Z.to_nat 7)) = Z.to_nat 7 /\
  0 < 2 /\
  let y_all :=
    replicate 2 "up" ++ replicate 2 "down" ++ replicate 2 "left"
    ++ replicate 2 "right" in
  exists X_all,
    build_dataset_from_mock nat seeded counting_normal small_angle_sin
      linspace 2 1 = Ok (X_all, y_all) /\
    length X_all = 4 * 2 /\
    Forall (fun trial =>
              length trial = 8 /\
              Forall (fun sig => length sig = Z.to_nat 7) trial) X_all /\
    forall k direction freq t,
      [("up", 10); ("down", 20); ("left", 12); ("right", 15)]%float !! k
        = Some (direction, freq) ->
      t < 2 ->
      exists X_dir trial,
        generate_mock_ssvep nat seeded counting_normal small_angle_sin
          linspace direction freq 2 8 7 1 0x1.3333333333333p-2 (Some 42%Z)
        = Ok (Batch X_dir, replicate 2 direction) /\
        items X_dir !! t = Some trial /\
        X_all !! (k * 2 + t) = Some trial /\
        y_all !! (k * 2 + t) = Some direction.
Proof.
  assert (float_mul_int 7 1 = Ok 7%float) as Hprod
    by (vm_compute; reflexivity).
  assert (int_of_float 7 = Ok 7%Z) as Hint by (vm_compute; reflexivity).
  assert (0 <= 7)%Z as Hnz by lia.
  assert (forall rng, counting_normal rng 0 0x1.3333333333333p-2 (Z.to_nat 7)
                      = Ok (counting_noise (Z.to_nat 7) rng, S rng)) as Hrng
    by (intros rng; reflexivity).
  assert (forall rng, length (counting_noise (Z.to_nat 7) rng) = Z.to_nat 7)
    as Hnoise by (intros rng; apply length_counting_noise).
  assert (length (linspace 0 7 (Z.to_nat 7)) = Z.to_nat 7) as Htime
    by apply length_linspace.
  assert (0 < 2) as Hpos by lia.
  split; [exact Hprod|]. split; [exact Hint|]. split; [exact Hnz|].
  split; [exact Hrng|]. split; [exact Hnoise|]. split; [exact Htime|].
  split; [exact Hpos|].
  exact (build_dataset_from_mock_classes_in_order nat seeded counting_normal
           small_angle_sin linspace 2 1 7 7 (counting_noise (Z.to_nat 7)) S
           Hprod Hint Hnz Hrng Hnoise Htime Hpos).
Defined.

Lemma build_dataset_from_mock_classes_share_noise_witness :
  float_mul_int 7 1 = Ok 7%float /\ int_of_float 7 = Ok 7%Z /\
  (0 <= 7)%Z /\
  (forall rng, counting_normal rng 0 0x1.3333333333333p-2 (Z.to_nat 7)
               = Ok (counting_noise (Z.to_nat 7) rng, S rng)) /\
  (forall rng, length (counting_noise (Z.to_nat 7) rng) = Z.to_nat 7) /\
  length (linspace 0 7 (Z.to_nat 7)) = Z.to_nat 7 /\
  0 < 2 /\ (0 <= 1)%Z /\
  exists X_all y_all,
    build_dataset_from_mock nat seeded counting_normal small_angle_sin
      linspace 2 1 = Ok (X_all, y_all) /\
    forall k k' t ch,
      k < 4 -> k' < 4 -> t < 2 -> ch < 8 ->
      exists sig sig',
        signal_at X_all (k * 2 + t) ch = Some sig /\
        signal_at X_all (k' * 2 + t) ch = Some sig' /\
        forall i, (Z.of_nat i < 2 * 1 \/ 5 * 1 <= Z.of_nat i)%Z ->
                  sig !! i = sig' !! i.
Proof.
  assert (float_mul_int 7 1 = Ok 7%float) as Hprod
    by (vm_compute; reflexivity).
  assert (int_of_float 7 = Ok 7%Z) as Hint by (vm_compute; reflexivity).
  assert (0 <= 7)%Z as Hnz by lia.
  assert (forall rng, counting_normal rng 0 0x1.3333333333333p-2 (Z.to_nat 7)
                      = Ok (counting_noise (Z.to_nat 7) rng, S rng)) as Hrng
    by (intros rng; reflexivity).
  assert (forall rng, length (counting_noise (Z.to_nat 7) rng) = Z.to_nat 7)
    as Hnoise by (intros rng; apply length_counting_noise).
  assert (length (linspace 0 7 (Z.to_nat 7)) = Z.to_nat 7) as Htime
    by apply length_linspace.
  assert (0 < 2) as Hpos by lia. assert (0 <= 1)%Z as Hfs by lia.
  split; [exact Hprod|]. split; [exact Hint|]. split; [exact Hnz|].
  split; [exact Hrng|]. split; [exact Hnoise|]. split; [exact Htime|].
  split; [exact Hpos|]. split; [exact Hfs|].
  exact (build_dataset_from_mock_classes_share_noise nat seeded
           counting_normal small_angle_sin linspace 2 1 7 7
           (counting_noise (Z.to_nat 7)) S
           Hprod Hint Hnz Hrng Hnoise Htime Hpos Hfs).
Defined.

(** One trial of one channel at two samples a second: fourteen samples, of
    which those from 4 to 9 carry the response. *)
Example generate_mock_ssvep_run :
  (fun out => (fun sig => (sig !! 3, sig !! 10)) <$> getitem3 out 0 0)
  <$> (match generate_mock_ssvep nat seeded counting_normal small_angle_sin
               linspace "up" 10 1 1 7 2 0x1.3333333333333p-2 (Some 42%Z) with
       | Ok (Batch X, _) => Some X
       | _ => None
       end)
  = Some (Ok (Some 45%float, Some 52%float)).
Proof. vm_compute. reflexivity. Qed.

End MockData.
